(** * gotest: a shallow embedding of [main.go] and its specification

    The tool discovers Go packages below the current directory, runs
    [go test] with a coverage profile, aggregates the profile into
    per-package totals and opens the HTML report.

    Go strings are byte sequences: they are modelled by [string]
    (a list of 8-bit [ascii] values).  The Go type [int] is the 64-bit
    two's-complement integer of the usual targets (amd64, arm64); it is
    modelled by [Z] with the wrap-around written out ([wrap]).
    Paths follow the Unix flavour of [path/filepath] (separator [/]),
    the flavour under which the fixed output path [/tmp/cover.out] of
    the tool makes sense. *)

From Stdlib Require Import ZArith Lia Ascii.
From stdpp Require Import gmap strings list sorting.

Local Open Scope Z_scope.

(** ** Errors *)

Inductive error : Type :=
| SkipDir                                   (* filepath.SkipDir *)
| ErrTooLong                                (* bufio.ErrTooLong *)
| ErrSys (msg : string)                     (* an error of the operating system or of a child process *)
| Errorf (format : string) (arg : string)   (* fmt.Errorf(format, arg), verb %s *)
| ErrorfW (format : string) (cause : error). (* fmt.Errorf(format, err), verb %w *)

Definition isSkipDir (e : error) : bool :=
  match e with SkipDir => true | _ => false end.

(** ** The type [int] *)

Definition intSize : Z := 64.
Definition maxInt : Z := 2 ^ (intSize - 1) - 1.
Definition minInt : Z := - 2 ^ (intSize - 1).

(** Reduction of a mathematical integer to [int] (two's complement). *)
Definition wrap (z : Z) : Z := (z + 2 ^ (intSize - 1)) mod 2 ^ intSize - 2 ^ (intSize - 1).

(** [a + b] on [int]. *)
Definition int_add (a b : Z) : Z := wrap (a + b).

(** ** Package [strings] *)

(** The newline and the double quote that Go string literals escape. *)
Definition newline : string := String (ascii_of_N 10) EmptyString.
Definition dquote : string := String (ascii_of_N 34) EmptyString.

Module Strings.

(** [s[n:]] and [s[:n]]; Go panics when [n > len(s)], every use in the
    tool is in range. *)
Fixpoint sliceFrom (s : string) (n : nat) {struct n} : string :=
  match n, s with
  | O, _ => s
  | S n', String _ s' => sliceFrom s' n'
  | S _, EmptyString => EmptyString
  end.

Fixpoint sliceTo (s : string) (n : nat) {struct n} : string :=
  match n, s with
  | O, _ => EmptyString
  | S n', String c s' => String c (sliceTo s' n')
  | S _, EmptyString => EmptyString
  end.

Fixpoint HasPrefix (s prefix : string) {struct prefix} : bool :=
  match prefix, s with
  | EmptyString, _ => true
  | String p prefix', String c s' => if Ascii.eqb c p then HasPrefix s' prefix' else false
  | String _ _, EmptyString => false
  end.

(** Some tail of [s] is [suffix]. *)
Fixpoint HasSuffix (s suffix : string) : bool :=
  String.eqb s suffix ||
  match s with
  | EmptyString => false
  | String _ s' => HasSuffix s' suffix
  end.

(** [substr] starts somewhere in [s]. *)
Fixpoint Contains (s substr : string) : bool :=
  HasPrefix s substr ||
  match s with
  | EmptyString => false
  | String _ s' => Contains s' substr
  end.

(** [LastIndex(s, substr)] counted from offset [i]: the largest index
    at which [substr] starts, [-1] when there is none. *)
Fixpoint lastIndexFrom (s substr : string) (i : Z) : Z :=
  match s with
  | EmptyString => if HasPrefix EmptyString substr then i else -1
  | String _ s' =>
      let r := lastIndexFrom s' substr (i + 1) in
      if 0 <=? r then r else if HasPrefix s substr then i else -1
  end.

Definition LastIndex (s substr : string) : Z := lastIndexFrom s substr 0.

(** [Split(s, sep)] for a non-empty separator: [skip] counts the bytes
    of a separator occurrence that are still to be passed over.  (For
    the empty separator Go explodes [s] into UTF-8 sequences; the tool
    only splits on [","] and on the newline.) *)
Fixpoint splitFrom (sep : string) (skip : nat) (s : string) : list string :=
  match s with
  | EmptyString => [EmptyString]
  | String c s' =>
      match skip with
      | S k => splitFrom sep k s'
      | O =>
          if HasPrefix s sep then EmptyString :: splitFrom sep (String.length sep - 1) s'
          else match splitFrom sep O s' with
               | hd :: tl => String c hd :: tl
               | [] => []
               end
      end
  end.

Definition Split (s sep : string) : list string := splitFrom sep O s.

Fixpoint Join (elems : list string) (sep : string) : string :=
  match elems with
  | [] => EmptyString
  | [e] => e
  | e :: rest => e +:+ sep +:+ Join rest sep
  end.

Fixpoint Repeat (s : string) (count : nat) : string :=
  match count with
  | O => EmptyString
  | S n => s +:+ Repeat s n
  end.

Definition byte (c : ascii) : N := N_of_ascii c.

(** The ASCII white space of Go: tab, newline, vertical tab, form feed,
    carriage return, space. *)
Definition asciiSpace (c : ascii) : bool :=
  let b := byte c in ((9 <=? b) && (b <=? 13) || (b =? 32))%N.

(** [unicode.IsSpace] on the rune that starts [s], as the number of
    bytes of that rune ([0] when [s] does not start with white space).
    Besides the ASCII white space these are U+0085, U+00A0 (two bytes)
    and U+1680, U+2000..U+200A, U+2028, U+2029, U+202F, U+205F, U+3000
    (three bytes) in their UTF-8 encoding.  A byte sequence that is not
    valid UTF-8 decodes to U+FFFD one byte at a time, and no encoding
    above starts on a continuation byte, so matching these encodings
    at a byte offset agrees with the rune-wise scan of Go. *)
Definition spaceLen (s : string) : nat :=
  match s with
  | EmptyString => O
  | String c r1 =>
      if asciiSpace c then 1%nat else
      match r1 with
      | EmptyString => O
      | String d r2 =>
          if ((byte c =? 194) && ((byte d =? 133) || (byte d =? 160)))%N then 2%nat else
          match r2 with
          | EmptyString => O
          | String e _ =>
              if (((byte c =? 225) && (byte d =? 154) && (byte e =? 128))
                  || ((byte c =? 226) && (byte d =? 128)
                      && (((128 <=? byte e) && (byte e <=? 138))
                          || (byte e =? 168) || (byte e =? 169) || (byte e =? 175)))
                  || ((byte c =? 226) && (byte d =? 129) && (byte e =? 159))
                  || ((byte c =? 227) && (byte d =? 128) && (byte e =? 128)))%N
              then 3%nat else O
          end
      end
  end.

(** The same test on the rune that ends a string, given the string
    reversed (Go decodes the last rune for [TrimRightFunc]). *)
Definition spaceLenRev (r : string) : nat :=
  match r with
  | EmptyString => O
  | String e r1 =>
      if asciiSpace e then 1%nat else
      match r1 with
      | EmptyString => O
      | String d r2 =>
          if spaceLen (String d (String e EmptyString)) =? 2 then 2 else
          match r2 with
          | EmptyString => O
          | String c _ =>
              if spaceLen (String c (String d (String e EmptyString))) =? 3 then 3 else O
          end
      end
  end%nat.

Definition flush (cur : option string) : list string :=
  match cur with
  | Some w => [String.rev w]
  | None => []
  end.

(** [Fields(s)]: the maximal runs of non-space runes.  [cur] is the
    field being read, reversed. *)
Fixpoint fieldsFrom (s : string) (skip : nat) (cur : option string) : list string :=
  match s with
  | EmptyString => flush cur
  | String c s' =>
      match skip with
      | S k => fieldsFrom s' k cur
      | O =>
          match spaceLen s with
          | O => fieldsFrom s' O (Some (String c (default EmptyString cur)))
          | S k => flush cur ++ fieldsFrom s' k None
          end
      end
  end.

Definition Fields (s : string) : list string := fieldsFrom s O None.

Fixpoint trimLeftFrom (s : string) (skip : nat) : string :=
  match s with
  | EmptyString => EmptyString
  | String _ s' =>
      match skip with
      | S k => trimLeftFrom s' k
      | O =>
          match spaceLen s with
          | O => s
          | S k => trimLeftFrom s' k
          end
      end
  end.

Fixpoint trimRightRev (r : string) (skip : nat) : string :=
  match r with
  | EmptyString => EmptyString
  | String _ r' =>
      match skip with
      | S k => trimRightRev r' k
      | O =>
          match spaceLenRev r with
          | O => r
          | S k => trimRightRev r' k
          end
      end
  end.

(** [TrimSpace(s)]: leading, then trailing white space removed. *)
Definition TrimSpace (s : string) : string :=
  String.rev (trimRightRev (String.rev (trimLeftFrom s O)) O).

End Strings.

(** ** Package [strconv] *)

Module Strconv.

Definition isDigit (c : ascii) : bool :=
  let b := Strings.byte c in ((48 <=? b) && (b <=? 57))%N.

Fixpoint digits (s : string) (acc : Z) : option Z :=
  match s with
  | EmptyString => Some acc
  | String c s' =>
      if isDigit c then digits s' (10 * acc + (Z.of_N (Strings.byte c) - 48)) else None
  end.

(** [Atoi(s)]: an optional sign, then one or more decimal digits
    (base 10, so no underscores and no prefix); [None] stands for the
    syntax error and for the range error of a value outside [int]. *)
Definition Atoi (s : string) : option Z :=
  let '(neg, body) :=
    match s with
    | String "-" r => (true, r)
    | String "+" r => (false, r)
    | _ => (false, s)
    end in
  match body with
  | EmptyString => None
  | _ =>
      match digits body 0 with
      | None => None
      | Some n =>
          let v := if neg then - n else n in
          if (minInt <=? v) && (v <=? maxInt) then Some v else None
      end
  end.

End Strconv.

(** ** Package [path/filepath] *)

Module Filepath.

(** One path element processed by [Clean]; [stack] holds the elements
    kept so far, the last one first.  An empty element and [.] are
    dropped; [..] removes the element before it, is kept when the path
    is relative and nothing but [..] precedes it, and is dropped at the
    root of a rooted path. *)
Definition cleanStep (rooted : bool) (stack : list string) (c : string) : list string :=
  if bool_decide (c = "") || bool_decide (c = ".") then stack
  else if bool_decide (c = "..") then
    match stack with
    | top :: rest => if bool_decide (top = "..") then c :: stack else rest
    | [] => if rooted then [] else [c]
    end
  else c :: stack.

(** [Clean(path)]: the shortest path equivalent to [path] by purely
    lexical processing; the empty path becomes [.]. *)
Definition Clean (path : string) : string :=
  if bool_decide (path = "") then "."
  else
    let rooted := Strings.HasPrefix path "/" in
    let out := Strings.Join (rev (foldl (cleanStep rooted) [] (Strings.Split path "/"))) "/" in
    if rooted then "/" +:+ out
    else if bool_decide (out = "") then "." else out.

(** [Dir(path)]: all but the last element of [path], cleaned. *)
Definition Dir (path : string) : string :=
  Clean (Strings.sliceTo path (Z.to_nat (Strings.LastIndex path "/" + 1))).

Fixpoint dropEmpty (elem : list string) : list string :=
  match elem with
  | [] => []
  | e :: rest => if bool_decide (e = "") then dropEmpty rest else elem
  end.

(** [Join(elem...)]: leading empty elements are ignored, the rest is
    joined by the separator and cleaned. *)
Definition Join (elem : list string) : string :=
  match dropEmpty elem with
  | [] => ""
  | es => Clean (Strings.Join es "/")
  end.

(** What [Lstat] and the directory reads show below a path: a
    directory lists its entries in the order [Walk] visits them
    (sorted by name); [rd] is the error of reading the directory, if
    any.  [File] stands for every entry that is not a directory, and
    [Broken] for a name whose [Lstat] fails. *)
#[warnings="-register-all"]
Inductive entry : Type :=
| File (name : string)
| Dir_ (name : string) (rd : option error) (kids : list entry)
| Broken (name : string) (e : error).

Definition Name (t : entry) : string :=
  match t with
  | File name | Dir_ name _ _ | Broken name _ => name
  end.

Definition IsDir (t : entry) : bool :=
  match t with Dir_ _ _ _ => true | _ => false end.

Section Walk.

Context {St : Type}.

(** The [WalkFunc]: path, [info] (name and [IsDir], absent when
    [Lstat] failed), the incoming error; it updates the state captured
    by the closure and returns an error or nil. *)
Variable walkFn : string → option (string * bool) → option error → St → St * option error.

Section Names.

(** [walk], as far as the loop over the names of a directory calls it. *)
Variable rec : string → entry → St → St * option error.

(** The loop of [walk] over the entries of the directory [path]: an
    error ends it, except [SkipDir] from a directory (or from the
    function called on a name whose [Lstat] failed). *)
Fixpoint walkNames (path : string) (names : list entry) (st : St) : St * option error :=
  match names with
  | [] => (st, None)
  | k :: rest =>
      let filename := Join [path; Name k] in
      let '(st', err) := rec filename k st in
      match err with
      | None => walkNames path rest st'
      | Some e =>
          match k with
          | Broken _ _ => if isSkipDir e then walkNames path rest st' else (st', Some e)
          | _ => if IsDir k && isSkipDir e then walkNames path rest st' else (st', Some e)
          end
      end
  end.

End Names.

Fixpoint walk (path : string) (t : entry) (st : St) : St * option error :=
  match t with
  | File name => walkFn path (Some (name, false)) None st
  | Broken _ e => walkFn path None (Some e) st
  | Dir_ name rd kids =>
      let '(st1, err1) := walkFn path (Some (name, true)) rd st in
      match rd, err1 with
      | None, None => walkNames walk path kids st1
      | _, _ => (st1, err1)
      end
  end.

Definition Walk (root : string) (t : entry) (st : St) : St * option error :=
  let '(st', err) := walk root t st in
  (st', match err with
        | Some e => if isSkipDir e then None else Some e
        | None => None
        end).

End Walk.

End Filepath.

(** ** Package [sort] *)

Module Sort.

(** [sort.Strings]: increasing order of the byte-wise comparison. *)
Definition Strings (l : list string) : list string := merge_sort String.le l.

End Sort.

(** ** Package [bufio] *)

Module Bufio.

Definition MaxScanTokenSize : Z := 64 * 1024.

(** [dropCR]: one trailing carriage return removed. *)
Fixpoint dropCR (s : string) : string :=
  match s with
  | EmptyString => EmptyString
  | String c EmptyString => if (Strings.byte c =? 13)%N then EmptyString else s
  | String c s' => String c (dropCR s')
  end.

Fixpoint tokens (raw : list string) : list string * option error :=
  match raw with
  | [] => ([], None)
  | l :: rest =>
      if MaxScanTokenSize <=? Z.of_nat (String.length l) then ([], Some ErrTooLong)
      else let '(ls, e) := tokens rest in (dropCR l :: ls, e)
  end.

Definition dropLastEmpty (raw : list string) : list string :=
  match reverse raw with
  | EmptyString :: r => reverse r
  | _ => raw
  end.

(** A [Scanner] with the default split function [ScanLines] run to
    the end over a reader that delivers [content] and then ends with
    [rerr] (nil for a clean end of file): the lines that [Scan] yields
    and the final [Err()].  A line is the text up to a newline, without
    one trailing carriage return; the text after the last newline is a
    line unless it is empty.  A line that does not fit the buffer
    (65536 bytes or more before its newline) stops the scan with
    [ErrTooLong]. *)
Definition ScanAll (content : string) (rerr : option error) : list string * option error :=
  let '(ls, e) := tokens (dropLastEmpty (Strings.Split content newline)) in
  (ls, match e with Some _ => e | None => rerr end).

End Bufio.

(** ** The tool *)

(** *** Observable effects *)

(** The value of [float64(covered) / float64(total) * 100], kept
    symbolic: its rendering by the verb [%8.1f] is left to [fmt]. *)
Inductive float64 : Type :=
| F0
| FPercent (covered total : Z).

Inductive arg : Type :=
| AStr (s : string)
| AInt (n : Z)
| AFloat (f : float64)
| AErr (e : error).

(** Where a child process writes its standard output and error. *)
Inductive stdio : Type :=
| Inherit   (* os.Stdout and os.Stderr of the tool: streamed *)
| Capture   (* one bytes.Buffer of the tool: buffered *)
| Discard.  (* left nil *)

Inductive event : Type :=
| Println (s : string)                                  (* fmt.Println(s); fmt.Println() is [Println ""] *)
| Printf (format : string) (args : list arg)            (* fmt.Printf *)
| Eprintf (format : string) (args : list arg)           (* fmt.Fprintf(os.Stderr, ...) *)
| CmdRun (name : string) (args : list string) (io : stdio)  (* exec.Command(name, args...).Run() *)
| CmdStart (name : string) (args : list string).        (* exec.Command(name, args...).Start() *)

(** *** The environment of one invocation *)

(** The results of the operations the tool asks of the system, in the
    state in which it asks for them (the profile is looked for after
    the test run). *)
Record World : Type := {
  GOOS : string;
  tree : Filepath.entry;                                   (* the directory tree at "." *)
  cmdRun : string → list string → string * option error;  (* combined output and result of Run *)
  cmdStart : string → list string → option error;         (* result of Start *)
  statNotExist : string → bool;                            (* os.IsNotExist of the error of os.Stat *)
  openFile : string → (string * option error) + error     (* os.Open: content and final read error, or the error of Open *)
}.

(** The package-level variables. *)
Record Globals : Type := {
  verbose : bool;
  ignorePatterns : list string
}.

Definition IO (A : Type) : Type := list event * A.

Definition ret {A : Type} (a : A) : IO A := ([], a).

Definition bind {A B : Type} (m : IO A) (k : A → IO B) : IO B :=
  let '(o, a) := m in let '(o', b) := k a in (o ++ o', b).

Definition emit (e : event) : IO unit := ([e], tt).

Definition emits (es : list event) : IO unit := (es, tt).

Notation "m ;; k" := (bind m (λ _, k)) (at level 100, k at level 200, right associativity).

(** *** [parseFlags] *)

(** The body shared by both forms of the ignore flag: the pieces of
    [value] between commas, trimmed, the empty ones left out, appended
    to [patterns]. *)
Definition appendPatterns (patterns : list string) (value : string) : list string :=
  foldl (λ acc p, let p := Strings.TrimSpace p in
                  if bool_decide (p ≠ "") then acc ++ [p] else acc)
        patterns (Strings.Split value ",").

Definition isDetail (arg : string) : bool :=
  bool_decide (arg = "-d") || bool_decide (arg = "--detail") || bool_decide (arg = "-detail").

Definition isIgnore (arg : string) : bool :=
  bool_decide (arg = "-i") || bool_decide (arg = "--ignore") || bool_decide (arg = "-ignore").

Definition isIgnoreEq (arg : string) : bool :=
  Strings.HasPrefix arg "-i=" || Strings.HasPrefix arg "--ignore=" || Strings.HasPrefix arg "-ignore=".

Definition ignoreEqValue (arg : string) : string :=
  if Strings.HasPrefix arg "-i=" then Strings.sliceFrom arg 3
  else if Strings.HasPrefix arg "--ignore=" then Strings.sliceFrom arg 9
  else Strings.sliceFrom arg 8.

(** The loop [for i := 0; i < len(args); i++]: one unit of [fuel] per
    iteration, state [(i, globals, goTestArgs)]. *)
Fixpoint parseFlagsLoop (fuel : nat) (args : list string) (i : nat)
    (g : Globals) (goTestArgs : list string) : Globals * list string :=
  match fuel with
  | O => (g, goTestArgs)
  | S fuel' =>
      match args !! i with
      | None => (g, goTestArgs)
      | Some arg =>
          if isDetail arg then
            parseFlagsLoop fuel' args (i + 1)
              {| verbose := true; ignorePatterns := ignorePatterns g |} goTestArgs
          else if isIgnore arg then
            match args !! (i + 1)%nat with
            | Some value =>
                parseFlagsLoop fuel' args (i + 1 + 1)
                  {| verbose := verbose g;
                     ignorePatterns := appendPatterns (ignorePatterns g) value |} goTestArgs
            | None => parseFlagsLoop fuel' args (i + 1) g goTestArgs
            end
          else if isIgnoreEq arg then
            parseFlagsLoop fuel' args (i + 1)
              {| verbose := verbose g;
                 ignorePatterns := appendPatterns (ignorePatterns g) (ignoreEqValue arg) |}
              goTestArgs
          else parseFlagsLoop fuel' args (i + 1) g (goTestArgs ++ [arg])
      end
  end.

(** The loop counter grows in every iteration, so [length args]
    iterations reach its end. *)
Definition parseFlags (g : Globals) (args : list string) : Globals * list string :=
  parseFlagsLoop (length args) args 0 g [].

(** The command line as the usage text describes it: a list of
    options, some of which take the next argument as their value. *)
Inductive token : Type :=
| TDetail                    (* -d, --detail, -detail *)
| TIgnore (value : string)   (* -i value and -i=value, in the three spellings *)
| TIgnoreNoValue             (* a final -i without a value *)
| TPass (arg : string).      (* anything else *)

Fixpoint tokenize (args : list string) : list token :=
  match args with
  | [] => []
  | arg :: rest =>
      if isDetail arg then TDetail :: tokenize rest
      else if isIgnore arg then
        match rest with
        | value :: rest' => TIgnore value :: tokenize rest'
        | [] => [TIgnoreNoValue]
        end
      else if isIgnoreEq arg then TIgnore (ignoreEqValue arg) :: tokenize rest
      else TPass arg :: tokenize rest
  end.

(** The patterns of one flag value, as the usage text has them:
    comma-separated, surrounding white space and empty pieces dropped. *)
Definition patternsOf (value : string) : list string :=
  filter (λ p, p ≠ "") (Strings.TrimSpace <$> Strings.Split value ",").

Definition tokenPatterns (t : token) : list string :=
  match t with TIgnore value => patternsOf value | _ => [] end.

Definition tokenPass (t : token) : list string :=
  match t with TPass arg => [arg] | _ => [] end.

Definition tokenDetail (t : token) : bool :=
  match t with TDetail => true | _ => false end.

(** The state of the globals after the options [ts] have been read. *)
Definition afterTokens (g : Globals) (ts : list token) : Globals :=
  {| verbose := verbose g || existsb tokenDetail ts;
     ignorePatterns := ignorePatterns g ++ concat (tokenPatterns <$> ts) |}.

(** *** [printTestErrors] *)

Definition isErrorLine (line : string) : bool :=
  Strings.Contains line "FAIL" ||
  Strings.Contains line "Error" ||
  Strings.Contains line "error" ||
  Strings.Contains line "panic" ||
  Strings.Contains line "--- FAIL" ||
  Strings.HasPrefix (Strings.TrimSpace line) "got:" ||
  Strings.HasPrefix (Strings.TrimSpace line) "want:" ||
  Strings.HasPrefix (Strings.TrimSpace line) "expected" ||
  Strings.Contains line "_test.go:".

Definition printTestErrors (output : string) : IO unit :=
  emits (Println <$> filter (λ line, isErrorLine line = true) (Strings.Split output newline)).

(** *** [displayCoverageStats] *)

Record CoverageStats : Type := {
  TotalStatements : Z;
  CoveredStatements : Z
}.

(** The body of the scanning loop on one line; the first five exits
    are its [continue] statements. *)
Definition processLine (packageStats : gmap string CoverageStats) (line : string)
    : gmap string CoverageStats :=
  if Strings.HasPrefix line "mode:" then packageStats
  else
    let parts := Strings.Fields line in
    if negb (bool_decide (length parts = 3%nat)) then packageStats
    else
      let filePart := nth 0 parts "" in
      let colonIdx := Strings.LastIndex filePart ":" in
      if colonIdx =? -1 then packageStats
      else
        let filePath := Strings.sliceTo filePart (Z.to_nat colonIdx) in
        let pkgPath := Filepath.Dir filePath in
        match Strconv.Atoi (nth 1 parts "") with
        | None => packageStats
        | Some numStatements =>
            match Strconv.Atoi (nth 2 parts "") with
            | None => packageStats
            | Some count =>
                let packageStats :=
                  match packageStats !! pkgPath with
                  | None => <[pkgPath := {| TotalStatements := 0; CoveredStatements := 0 |}]> packageStats
                  | Some _ => packageStats
                  end in
                let packageStats :=
                  alter (λ st, {| TotalStatements := int_add (TotalStatements st) numStatements;
                                  CoveredStatements := CoveredStatements st |})
                        pkgPath packageStats in
                if 0 <? count then
                  alter (λ st, {| TotalStatements := TotalStatements st;
                                  CoveredStatements := int_add (CoveredStatements st) numStatements |})
                        pkgPath packageStats
                else packageStats
            end
        end.

(** The map after the scanning loop has seen [lines]. *)
Definition aggregate (lines : list string) : gmap string CoverageStats :=
  foldl processLine ∅ lines.

Definition coverageOf (covered total : Z) : float64 :=
  if 0 <? total then FPercent covered total else F0.

Definition displayName (pkg : string) : string :=
  if (58 <? String.length pkg)%nat
  then "..." +:+ Strings.sliceFrom pkg (String.length pkg - 55)
  else pkg.

Definition rowFormat : string := "%-61s %8.1f%%" +:+ newline.

(** The loop over the sorted package names: one row each, the grand
    totals accumulated on the way. *)
Fixpoint reportRows (packageStats : gmap string CoverageStats) (pkgNames : list string)
    (totalStatements totalCovered : Z) : IO (Z * Z) :=
  match pkgNames with
  | [] => ret (totalStatements, totalCovered)
  | pkg :: rest =>
      let stats := default {| TotalStatements := 0; CoveredStatements := 0 |} (packageStats !! pkg) in
      let totalStatements := int_add totalStatements (TotalStatements stats) in
      let totalCovered := int_add totalCovered (CoveredStatements stats) in
      let coverage := coverageOf (CoveredStatements stats) (TotalStatements stats) in
      emit (Printf rowFormat [AStr (displayName pkg); AFloat coverage]);;
      reportRows packageStats rest totalStatements totalCovered
  end.

(** The part of [displayCoverageStats] after the scan.  Ranging over
    a Go map yields the keys in no fixed order; [map_to_list] is one
    such order, and the sort that follows makes it irrelevant. *)
Definition report (packageStats : gmap string CoverageStats) : IO (option error) :=
  if bool_decide (size packageStats = 0%nat) then
    emit (Println "No coverage data found");; ret None
  else
    let pkgNames := Sort.Strings ((map_to_list packageStats).*1) in
    emit (Println "");;
    emit (Printf ("%-61s %10s" +:+ newline) [AStr "PACKAGE"; AStr "COVERAGE"]);;
    emit (Println (Strings.Repeat "-" 70));;
    bind (reportRows packageStats pkgNames 0 0) (λ '(totalStatements, totalCovered),
    emit (Println (Strings.Repeat "-" 70));;
    emit (Printf rowFormat [AStr "TOTAL"; AFloat (coverageOf totalCovered totalStatements)]);;
    emit (Printf (newline +:+ "Statements: %d/%d covered" +:+ newline)
                 [AInt totalCovered; AInt totalStatements]);;
    ret None).

Definition displayCoverageStats (w : World) (coverProfile : string) : IO (option error) :=
  match openFile w coverProfile with
  | inr err => ret (Some err)
  | inl (content, rerr) =>
      let '(lines, serr) := Bufio.ScanAll content rerr in
      let packageStats := aggregate lines in
      match serr with
      | Some err => ret (Some err)
      | None => report packageStats
      end
  end.

(** *** [openBrowser] *)

Definition openBrowser (w : World) (url : string) : IO (option error) :=
  if bool_decide (GOOS w = "darwin") then
    emit (CmdStart "open" [url]);; ret (cmdStart w "open" [url])
  else if bool_decide (GOOS w = "linux") then
    emit (CmdStart "xdg-open" [url]);; ret (cmdStart w "xdg-open" [url])
  else if bool_decide (GOOS w = "windows") then
    emit (CmdStart "cmd" ["/c"; "start"; url]);; ret (cmdStart w "cmd" ["/c"; "start"; url])
  else ret (Some (Errorf "unsupported platform: %s" (GOOS w))).

Definition usage : string :=
  "gotest - Run go test recursively with coverage

Usage:
  gotest [options] [go test flags...]

Options:
  -d, --detail              Show detailed test output (default: minimal output)
  -i, --ignore <patterns>   Ignore packages matching patterns (comma-separated)
  -h, --help                Show this help message

Description:
  Automatically finds all Go packages in the current directory and
  subdirectories, runs 'go test' with coverage, displays coverage
  statistics, and opens the HTML report in your browser.

  Recursion is automatic - no flags needed!

Examples:
  gotest                              Run all tests (minimal output)
  gotest -d                           Run with detailed output
  gotest -i example,pb                Ignore packages containing " +:+ dquote +:+ "example" +:+ dquote +:+ " or " +:+ dquote +:+ "pb" +:+ dquote +:+ "
  gotest --ignore=cmd,testdata        Same as above with = syntax
  gotest -i generated -v              Ignore + verbose go test output
  gotest -run TestFoo                 Run specific tests

Output:
  Coverage profile: /tmp/cover.out
  HTML report:      /tmp/cover.html

All other flags are passed directly to 'go test'. See 'go help test' for details.".

Definition printUsage : IO unit := emit (Println usage).

Definition isHelp (arg : string) : bool :=
  bool_decide (arg = "-h") || bool_decide (arg = "--help") || bool_decide (arg = "-help").

Section Tool.

(** [shouldIgnore] is called by [findGoPackages] and defined in no
    file at hand.  It is a parameter here: a test on a path that may
    consult the ignore patterns collected by [parseFlags]. *)
Variable shouldIgnore : list string → string → bool.

(** *** [findGoPackages] *)

(** What the closure passed to [filepath.Walk] captures. *)
Record walkState : Type := {
  packages : list string;
  seen : gmap string bool
}.

Definition skippedName (name : string) : bool :=
  (Strings.HasPrefix name "." && bool_decide (name ≠ "."))
  || bool_decide (name = "vendor") || bool_decide (name = "testdata").

(** The closure.  [Walk] hands over no [info] only together with an
    error, so the case without both is never run. *)
Definition visit (g : Globals) (path : string) (info : option (string * bool))
    (err : option error) (st : walkState) : walkState * option error :=
  match err, info with
  | Some e, _ => (st, Some e)
  | None, None => (st, None)
  | None, Some (name, true) =>
      if skippedName name then (st, Some SkipDir)
      else if shouldIgnore (ignorePatterns g) path then (st, Some SkipDir)
      else (st, None)
  | None, Some (_, false) =>
      if Strings.HasSuffix path ".go" then
        let dir := Filepath.Dir path in
        if negb (default false (seen st !! dir)) && negb (shouldIgnore (ignorePatterns g) dir) then
          ({| packages := packages st ++ [if bool_decide (dir = ".") then "./." else "./" +:+ dir];
              seen := <[dir := true]> (seen st) |}, None)
        else (st, None)
      else (st, None)
  end.

Definition findGoPackages (g : Globals) (root : string) (t : Filepath.entry)
    : list string * option error :=
  let '(st, err) := Filepath.Walk (visit g) root t {| packages := []; seen := ∅ |} in
  match err with
  | Some e => ([], Some e)
  | None => (packages st, None)
  end.

(** *** [run] and [main] *)

Definition coverProfile : string := "/tmp/cover.out".
Definition coverHTML : string := "/tmp/cover.html".

(** The argument list handed to [go]. *)
Definition testArgs (userArgs pkgs : list string) : list string :=
  let args := ["test"] in
  let args := args ++ ["-coverprofile=" +:+ coverProfile; "-covermode=atomic"] in
  let args := args ++ userArgs in
  args ++ pkgs.

Definition coverArgs : list string :=
  ["tool"; "cover"; "-html=" +:+ coverProfile; "-o"; coverHTML].

Definition run (g : Globals) (w : World) (userArgs : list string) : IO (option error) :=
  match findGoPackages g "." (tree w) with
  | (_, Some err) => ret (Some (ErrorfW "finding go packages: %w" err))
  | (pkgs, None) =>
      if bool_decide (length pkgs = 0%nat) then
        emit (Println "No Go packages found");; ret None
      else
        (if verbose g then
           emit (Printf ("Found %d package(s) with Go files:" +:+ newline) [AInt (Z.of_nat (length pkgs))]);;
           emits ((λ pkg, Printf ("  - %s" +:+ newline) [AStr pkg]) <$> pkgs);;
           emit (Println "")
         else
           emit (Printf ("Testing %d package(s)..." +:+ newline) [AInt (Z.of_nat (length pkgs))]));;
        let args := testArgs userArgs pkgs in
        (if verbose g then
           emit (Printf ("Running: go %s" +:+ newline +:+ newline) [AStr (Strings.Join args " ")])
         else ret tt);;
        let '(testOutput, testErr) := cmdRun w "go" args in
        (if verbose g then
           emit (CmdRun "go" args Inherit)
         else
           emit (CmdRun "go" args Capture);;
           match testErr with
           | Some _ =>
               emit (Println (newline +:+ "--- TEST ERRORS ---"));;
               printTestErrors testOutput;;
               emit (Println "-------------------")
           | None => ret tt
           end);;
        (match testErr with
         | Some _ => emit (Eprintf (newline +:+ "Tests failed" +:+ newline) [])
         | None => emit (Println "All tests passed")
         end);;
        if statNotExist w coverProfile then
          ret (Some (Errorf "coverage profile not generated at %s" coverProfile))
        else
          emit (Println "");;
          emit (Println (Strings.Repeat "=" 60));;
          emit (Println "COVERAGE SUMMARY");;
          emit (Println (Strings.Repeat "=" 60));;
          bind (displayCoverageStats w coverProfile) (λ err,
            match err with
            | Some e => emit (Eprintf ("Warning: could not parse coverage stats: %v" +:+ newline) [AErr e])
            | None => ret tt
            end);;
          emit (Println (Strings.Repeat "=" 60));;
          (if verbose g then
             emit (Printf (newline +:+ "Generating coverage report: %s" +:+ newline) [AStr coverHTML])
           else ret tt);;
          emit (CmdRun "go" coverArgs (if verbose g then Inherit else Discard));;
          match (cmdRun w "go" coverArgs).2 with
          | Some err => ret (Some (ErrorfW "generating coverage HTML: %w" err))
          | None =>
              emit (Printf (newline +:+ "Opening %s in browser..." +:+ newline) [AStr coverHTML]);;
              bind (openBrowser w coverHTML) (λ err,
                match err with
                | Some e => ret (Some (ErrorfW "opening browser: %w" e))
                | None => ret None
                end)
          end
  end.

(** [main] on [os.Args[1:]]: the output and the exit status. *)
Definition main (w : World) (osArgs : list string) : IO Z :=
  let '(g, args) := parseFlags {| verbose := false; ignorePatterns := [] |} osArgs in
  if existsb isHelp args then printUsage;; ret 0
  else
    bind (run g w args) (λ err,
      match err with
      | Some e => emit (Eprintf ("Error: %v" +:+ newline) [AErr e]);; ret 1
      | None => ret 0
      end).

End Tool.


(** ** Vocabulary of the properties *)

(** The child processes an output asks for, in order. *)
Definition commands (out : list event) : list (string * list string) :=
  omap (λ e, match e with
             | CmdRun name args _ | CmdStart name args => Some (name, args)
             | _ => None
             end) out.

(** [w], with the test runner writing [output] instead. *)
Definition withTestOutput (w : World) (args : list string) (output : string) : World :=
  {| GOOS := GOOS w;
     tree := tree w;
     cmdRun := λ name args',
       if bool_decide (name = "go" ∧ args' = args) then (output, (cmdRun w name args').2)
       else cmdRun w name args';
     cmdStart := cmdStart w;
     statNotExist := statNotExist w;
     openFile := openFile w |}.

(** What the tool prints of the buffered output of a failed test run. *)
Definition testErrorsBlock (output : string) : list event :=
  [Println (newline +:+ "--- TEST ERRORS ---")]
  ++ (Println <$> filter (λ line, isErrorLine line = true) (Strings.Split output newline))
  ++ [Println "-------------------"].

Definition initialGlobals : Globals := {| verbose := false; ignorePatterns := [] |}.

(** What [run] prints before it starts the test runner. *)
Definition announcement (g : Globals) (userArgs pkgs : list string) : list event :=
  (if verbose g then
     [Printf ("Found %d package(s) with Go files:" +:+ newline) [AInt (Z.of_nat (length pkgs))]]
     ++ ((λ pkg, Printf ("  - %s" +:+ newline) [AStr pkg]) <$> pkgs)
     ++ [Println ""]
   else [Printf ("Testing %d package(s)..." +:+ newline) [AInt (Z.of_nat (length pkgs))]])
  ++ (if verbose g then
        [Printf ("Running: go %s" +:+ newline +:+ newline)
                [AStr (Strings.Join (testArgs userArgs pkgs) " ")]]
      else []).

(** The verdict on the test run. *)
Definition verdict (testErr : option error) : event :=
  match testErr with
  | Some _ => Eprintf (newline +:+ "Tests failed" +:+ newline) []
  | None => Println "All tests passed"
  end.

(** The warning about a profile that could not be read. *)
Definition parseWarning (err : option error) : list event :=
  match err with
  | Some e => [Eprintf ("Warning: could not parse coverage stats: %v" +:+ newline) [AErr e]]
  | None => []
  end.

(** What [run] prints from the coverage summary on, up to the start
    of the coverage tool. *)
Definition summaryOutput (g : Globals) (w : World) : list event :=
  [Println ""; Println (Strings.Repeat "=" 60); Println "COVERAGE SUMMARY";
   Println (Strings.Repeat "=" 60)]
  ++ (displayCoverageStats w coverProfile).1
  ++ parseWarning (displayCoverageStats w coverProfile).2
  ++ [Println (Strings.Repeat "=" 60)]
  ++ (if verbose g then
        [Printf (newline +:+ "Generating coverage report: %s" +:+ newline) [AStr coverHTML]]
      else [])
  ++ [CmdRun "go" coverArgs (if verbose g then Inherit else Discard)].

(** What [run] does once the test runner has returned: its output and
    its result. *)
Definition afterTests (g : Globals) (w : World) : IO (option error) :=
  if statNotExist w coverProfile then
    ([], Some (Errorf "coverage profile not generated at %s" coverProfile))
  else
    match (cmdRun w "go" coverArgs).2 with
    | Some err => (summaryOutput g w, Some (ErrorfW "generating coverage HTML: %w" err))
    | None =>
        (summaryOutput g w
         ++ [Printf (newline +:+ "Opening %s in browser..." +:+ newline) [AStr coverHTML]]
         ++ (openBrowser w coverHTML).1,
         match (openBrowser w coverHTML).2 with
         | Some e => Some (ErrorfW "opening browser: %w" e)
         | None => None
         end)
    end.

(** *** The options of the tool *)





(** *** Error-related lines *)

Definition substringOf (sub s : string) : Prop := ∃ pre post, s = pre +:+ sub +:+ post.

Definition startsWith (prefix s : string) : Prop := ∃ rest, s = prefix +:+ rest.

(** The lines of the output of the test runner that count as
    error-related: a line that holds one of five words anywhere, or
    that, without the white space around it, starts with one of three
    others. *)
Definition errorRelated (line : string) : Prop :=
  (∃ word, word ∈ ["FAIL"; "Error"; "error"; "panic"; "_test.go:"] ∧ substringOf word line)
  ∨ (∃ word, word ∈ ["got:"; "want:"; "expected"]
             ∧ startsWith word (Strings.TrimSpace line)).

(** [keeps P lines kept]: [kept] holds the lines of [lines] with the
    property [P], each as often as it is there, in their order. *)
Inductive keeps (P : string → Prop) : list string → list string → Prop :=
| keeps_nil :
    keeps P [] []
| keeps_yes (line : string) (lines kept : list string) :
    P line → keeps P lines kept → keeps P (line :: lines) (line :: kept)
| keeps_no (line : string) (lines kept : list string) :
    ¬ P line → keeps P lines kept → keeps P (line :: lines) kept.

(** An output of a failed test run. *)
Definition sampleTestOutput : string :=
  "=== RUN   TestA" +:+ newline +:+
  "    a_test.go:12: unexpected sum" +:+ newline +:+
  "        got: 3" +:+ newline +:+
  "--- FAIL: TestA (0.00s)" +:+ newline +:+
  "ok      example.com/m/pkg      0.004s" +:+ newline.

(** *** Paths and trees *)

(** The names a directory can list: not empty, not [.] or [..], and
    without a separator. *)
Definition validName (name : string) : bool :=
  negb (bool_decide (name = "")) && negb (bool_decide (name = "."))
  && negb (bool_decide (name = "..")) && negb (Strings.Contains name "/").

(** The path, relative to the root [.], of the entry reached from the
    root through the directory entries [names]. *)
Definition pathOf (names : list string) : string :=
  match names with
  | [] => "."
  | _ => Strings.Join names "/"
  end.

(** Every directory at or below [t] lists valid names. *)
Fixpoint namesValid (t : Filepath.entry) : bool :=
  match t with
  | Filepath.Dir_ _ _ kids => forallb (λ k, validName (Filepath.Name k) && namesValid k) kids
  | _ => true
  end.

(** The directories the specification wants skipped: a name that
    starts with a dot (other than [.] itself), [vendor], [testdata],
    and a path that the ignore patterns match. *)
Definition skippedDir (shouldIgnore : list string → string → bool) (g : Globals)
    (names : list string) (name : string) : bool :=
  (Strings.HasPrefix name "." && negb (bool_decide (name = ".")))
  || bool_decide (name = "vendor") || bool_decide (name = "testdata")
  || shouldIgnore (ignorePatterns g) (pathOf names).

(** The walk meets nothing that cannot be read: in the tree [t],
    reached through [names], no [Lstat] fails and no directory fails
    to be listed, outside the directories that are skipped.  What lies
    in a skipped directory is never looked at; the skipped directory
    itself is. *)
Fixpoint readable (shouldIgnore : list string → string → bool) (g : Globals)
    (names : list string) (t : Filepath.entry) : bool :=
  match t with
  | Filepath.File _ => true
  | Filepath.Broken _ _ => false
  | Filepath.Dir_ name rd kids =>
      match rd with
      | Some _ => false
      | None =>
          skippedDir shouldIgnore g names name
          || forallb (λ k, readable shouldIgnore g (names ++ [Filepath.Name k]) k) kids
      end
  end.

(** No error of the system is [SkipDir], the sentinel of the walk. *)
Fixpoint noSentinel (t : Filepath.entry) : bool :=
  match t with
  | Filepath.File _ => true
  | Filepath.Broken _ e => negb (isSkipDir e)
  | Filepath.Dir_ _ rd kids =>
      match rd with
      | Some e => negb (isSkipDir e)
      | None => forallb noSentinel kids
      end
  end.

(** [reaches names t names' kids']: below the entry [t], itself
    reached through [names], lies the directory reached through
    [names'] that lists [kids'], and no directory from [t] down to it,
    both included, is skipped.  A directory that cannot be read lists
    nothing. *)
Inductive reaches (shouldIgnore : list string → string → bool) (g : Globals)
    : list string → Filepath.entry → list string → list Filepath.entry → Prop :=
| reaches_here (names : list string) (name : string) (kids : list Filepath.entry) :
    skippedDir shouldIgnore g names name = false →
    reaches shouldIgnore g names (Filepath.Dir_ name None kids) names kids
| reaches_below (names : list string) (name : string)
    (kids : list Filepath.entry) (k : Filepath.entry) (names' : list string)
    (kids' : list Filepath.entry) :
    skippedDir shouldIgnore g names name = false →
    k ∈ kids →
    reaches shouldIgnore g (names ++ [Filepath.Name k]) k names' kids' →
    reaches shouldIgnore g names (Filepath.Dir_ name None kids) names' kids'.

(** The package [p] is that of a directory at or below [t] which is
    in no skipped directory and lists a file whose name ends in
    [.go]. *)
Definition contributes (shouldIgnore : list string → string → bool) (g : Globals)
    (names : list string) (t : Filepath.entry) (p : string) : Prop :=
  ∃ names' kids' file,
    reaches shouldIgnore g names t names' kids'
    ∧ Filepath.File file ∈ kids'
    ∧ Strings.HasSuffix file ".go" = true
    ∧ p = "./" +:+ pathOf names'.

(** The invariant of the state of the walk: no package twice, and
    [seen] holds the directories of the packages. *)
Definition walkInv (st : walkState) : Prop :=
  NoDup (packages st)
  ∧ ∀ d, default false (seen st !! d) = true ↔ "./" +:+ d ∈ packages st.

(** The state [st'] of the walk after the tree [t], reached through
    [names], when the walk goes on: the packages that [t] contributes
    are added to those of [st], and nothing in [t] failed to be read
    (where the system has no error that is the sentinel). *)
Definition walked (shouldIgnore : list string → string → bool) (g : Globals)
    (names : list string) (t : Filepath.entry) (st st' : walkState) : Prop :=
  walkInv st'
  ∧ (∀ p, p ∈ packages st' ↔ p ∈ packages st ∨ contributes shouldIgnore g names t p)
  ∧ (noSentinel t = true → readable shouldIgnore g names t = true).

(** What the walk does on a directory [t] reached through [names]:
    it ends without error or with [SkipDir], and has added the
    packages that [t] contributes; or it ends with the error of
    something that could not be read. *)
Definition walkSpec (shouldIgnore : list string → string → bool) (g : Globals)
    (t : Filepath.entry) : Prop :=
  ∀ (names : list string) (st : walkState),
    Filepath.IsDir t = true →
    namesValid t = true →
    Forall (λ n, validName n = true) names →
    walkInv st →
    ∃ st' err,
      Filepath.walk (visit shouldIgnore g) (pathOf names) t st = (st', err)
      ∧ match err with
        | None => walked shouldIgnore g names t st st'
        | Some e =>
            if isSkipDir e then walked shouldIgnore g names t st st'
            else readable shouldIgnore g names t = false
        end.

(** The claim read for every tree, readable or not: the function
    returns the packages of the directories that list a Go file. *)
Definition packagesOfEveryTree (shouldIgnore : list string → string → bool) : Prop :=
  ∀ (g : Globals) (t : Filepath.entry),
    Filepath.IsDir t = true →
    namesValid t = true →
    ∃ pkgs,
      findGoPackages shouldIgnore g "." t = (pkgs, None)
      ∧ NoDup pkgs
      ∧ ∀ p, p ∈ pkgs ↔ contributes shouldIgnore g [] t p.

(** *** Coverage lines *)

(** A well-formed line of the profile, read: the file path (the first
    field up to its last colon), the statement count (second field)
    and the execution count (third field).  [None] for the mode line
    and for every line that does not read this way. *)
Definition parseLine (line : string) : option (string * Z * Z) :=
  if Strings.HasPrefix line "mode:" then None
  else
    match Strings.Fields line with
    | [filePart; stmts; cnt] =>
        if Strings.LastIndex filePart ":" =? -1 then None
        else
          match Strconv.Atoi stmts, Strconv.Atoi cnt with
          | Some n, Some c =>
              Some (Strings.sliceTo filePart (Z.to_nat (Strings.LastIndex filePart ":")), n, c)
          | _, _ => None
          end
    | _ => None
    end.

(** The package key of a well-formed line. *)
Definition lineKey (line : string) : option string :=
  (λ p, Filepath.Dir p.1.1) <$> parseLine line.

(** The counter pair of package [k] after [numStatements] statements
    run [count] times were added to it. *)
Definition bump (k : string) (numStatements count : Z) (m : gmap string CoverageStats)
    : gmap string CoverageStats :=
  let st := default {| TotalStatements := 0; CoveredStatements := 0 |} (m !! k) in
  <[k := {| TotalStatements := int_add (TotalStatements st) numStatements;
            CoveredStatements := if 0 <? count
                                 then int_add (CoveredStatements st) numStatements
                                 else CoveredStatements st |}]> m.

(** The statement and execution counts of the well-formed lines of
    package [k], in the order of the lines. *)
Definition attributed (k : string) (lines : list string) : list (Z * Z) :=
  omap (λ line, match parseLine line with
                | Some (filePath, n, c) =>
                    if bool_decide (Filepath.Dir filePath = k) then Some (n, c) else None
                | None => None
                end) lines.

Definition sumZ (l : list Z) : Z := foldr Z.add 0 l.

(** The sum of the statement counts of the lines of package [k], and
    of those among them that were executed. *)
Definition totalOf (k : string) (lines : list string) : Z :=
  sumZ ((attributed k lines).*1).

Definition coveredOf (k : string) (lines : list string) : Z :=
  sumZ ((filter (λ p, 0 < p.2) (attributed k lines)).*1).

(** The specification read with sums of mathematical integers. *)
Definition totalsAreExactSums : Prop :=
  ∀ (lines : list string) (k : string) (st : CoverageStats),
    aggregate lines !! k = Some st →
    TotalStatements st = totalOf k lines ∧ CoveredStatements st = coveredOf k lines.

(** The invariant of a counter pair. *)
Definition coveredWithinTotal (st : CoverageStats) : Prop :=
  0 ≤ CoveredStatements st ≤ TotalStatements st.

Definition nonNegativeCounts (lines : list string) : Prop :=
  ∀ line filePath n c, line ∈ lines → parseLine line = Some (filePath, n, c) → 0 ≤ n.

(** The specification of the invariant, for every profile with
    non-negative statement counts. *)
Definition invariantAlways : Prop :=
  ∀ (lines : list string) (k : string) (st : CoverageStats),
    nonNegativeCounts lines →
    aggregate lines !! k = Some st →
    coveredWithinTotal st.

Fixpoint allDigits (s : string) : bool :=
  match s with
  | EmptyString => true
  | String c s' => Strconv.isDigit c && allDigits s'
  end.

(** An optional sign and at least one decimal digit. *)
Definition isDecimal (s : string) : bool :=
  let body := match s with
              | String "-" r | String "+" r => r
              | _ => s
              end in
  negb (bool_decide (body = "")) && allDigits body.

(** The lines the specification wants skipped. *)
Definition malformed (line : string) : Prop :=
  Strings.HasPrefix line "mode:" = true
  ∨ length (Strings.Fields line) ≠ 3%nat
  ∨ ∃ f a b, Strings.Fields line = [f; a; b]
             ∧ (Strings.Contains f ":" = false ∨ isDecimal a = false ∨ isDecimal b = false).

(** One row of the summary table. *)
Definition rowOf (m : gmap string CoverageStats) (pkg : string) : event :=
  let stats := default {| TotalStatements := 0; CoveredStatements := 0 |} (m !! pkg) in
  Printf rowFormat [AStr (displayName pkg);
                    AFloat (coverageOf (CoveredStatements stats) (TotalStatements stats))].

(** ** Sample inputs *)

Definition noIgnore : list string → string → bool := λ _ _, false.

Definition sampleTree : Filepath.entry :=
  Filepath.Dir_ "." None
    [Filepath.Dir_ ".git" None [Filepath.File "hook.go"];
     Filepath.File "main.go";
     Filepath.Dir_ "pkg" None
       [Filepath.File "a.go"; Filepath.File "a_test.go"; Filepath.File "notes.txt";
        Filepath.Dir_ "vendor" None [Filepath.File "v.go"]]].

(** A tree whose repository data cannot be listed. *)
Definition unreadableGit : Filepath.entry :=
  Filepath.Dir_ "." None
    [Filepath.Dir_ ".git" (Some (ErrSys "permission denied")) [];
     Filepath.File "main.go"].

(** A tree with entries that cannot be read in a skipped directory. *)
Definition unreadableFixtures : Filepath.entry :=
  Filepath.Dir_ "." None
    [Filepath.File "main.go";
     Filepath.Dir_ "pkg" None [Filepath.File "a.go"; Filepath.File "b.go"];
     Filepath.Dir_ "testdata" None
       [Filepath.Broken "gone" (ErrSys "no such file or directory");
        Filepath.Dir_ "locked" (Some (ErrSys "permission denied")) [];
        Filepath.File "fixture.go"]].

Definition sampleProfile : string :=
  "mode: atomic" +:+ newline +:+
  "example.com/m/main.go:10.2,12.16 3 1" +:+ newline +:+
  "example.com/m/pkg/a.go:5.1,9.2 4 0" +:+ newline +:+
  "example.com/m/pkg/a.go:11.1,12.2 2 7" +:+ newline.

(** A system on which everything works, except that the test runner
    ends with [testErr]; it has written the profile all the same. *)
Definition sampleWorld (testErr : option error) : World :=
  {| GOOS := "linux";
     tree := sampleTree;
     cmdRun := λ _ args,
       if bool_decide (head args = Some "test")
       then ("--- FAIL: TestA (0.00s)" +:+ newline +:+ "ok" +:+ newline, testErr)
       else ("", None);
     cmdStart := λ _ _, None;
     statNotExist := λ _, false;
     openFile := λ _, inl (sampleProfile, None) |}.

(** The reading of the specification that every failure ends the
    process with a non-zero status, in the case of the test runner. *)
Definition failedTestsExitNonZero (shouldIgnore : list string → string → bool) : Prop :=
  ∀ (w : World) (osArgs pkgs : list string),
    existsb isHelp (parseFlags initialGlobals osArgs).2 = false →
    findGoPackages shouldIgnore (parseFlags initialGlobals osArgs).1 "." (tree w) = (pkgs, None) →
    pkgs ≠ [] →
    is_Some (cmdRun w "go" (testArgs (parseFlags initialGlobals osArgs).2 pkgs)).2 →
    (main shouldIgnore w osArgs).2 ≠ 0.

Definition bigLine : string := "example.com/m/a.go:1.1,2.2 9223372036854775807 1".
Definition oneMoreLine : string := "example.com/m/b.go:1.1,2.2 1 0".

(** A line of 65536 bytes that starts like the mode line. *)
Definition tooLongLine : string :=
  "mode:" +:+ Strings.Repeat "x" (Z.to_nat (Bufio.MaxScanTokenSize - 5)).

Definition worldWithProfile (content : string) : World :=
  {| GOOS := "linux";
     tree := sampleTree;
     cmdRun := λ _ _, ("", None);
     cmdStart := λ _ _, None;
     statNotExist := λ _, false;
     openFile := λ _, inl (content, None) |}.

(** The specification read on the lines of the profile as they stand
    in the file: a profile that is read without an I/O error and holds
    none but lines to skip makes the function return nil. *)
Definition skippedLinesNeverFail : Prop :=
  ∀ (w : World) (path content : string),
    openFile w path = inl (content, None) →
    (∀ line, line ∈ Strings.Split content newline → malformed line) →
    (displayCoverageStats w path).2 = None.

(** ** Further vocabulary *)

(** An option of the tool itself, in any of its spellings. *)
Definition isOption (arg : string) : bool :=
  isDetail arg || isIgnore arg || isIgnoreEq arg.



(** The statement and execution counts of all well-formed lines, in
    the order of the lines. *)
Definition counts (lines : list string) : list (Z * Z) :=
  omap (λ line, (λ p, (p.1.2, p.2)) <$> parseLine line) lines.

(** The sum of the statement counts of all well-formed lines, and of
    those among them that were executed. *)
Definition totalAll (lines : list string) : Z := sumZ ((counts lines).*1).

Definition coveredAll (lines : list string) : Z :=
  sumZ ((filter (λ p, 0 < p.2) (counts lines)).*1).

(** The sums of the counters of a map, over all packages. *)
Definition mapTotal (m : gmap string CoverageStats) : Z :=
  sumZ ((λ p, TotalStatements p.2) <$> map_to_list m).

Definition mapCovered (m : gmap string CoverageStats) : Z :=
  sumZ ((λ p, CoveredStatements p.2) <$> map_to_list m).

(** A system on which the profile cannot be opened. *)
Definition worldWithoutProfile (e : error) : World :=
  {| GOOS := "linux";
     tree := sampleTree;
     cmdRun := λ _ _, ("", None);
     cmdStart := λ _ _, None;
     statNotExist := λ _, false;
     openFile := λ _, inr e |}.

(** * Properties *)

(** ** The library models on the examples of their documentation *)

Example Clean_examples :
  Filepath.Clean "a//c" = "a/c" ∧ Filepath.Clean "a/c/." = "a/c"
  ∧ Filepath.Clean "a/c/b/.." = "a/c" ∧ Filepath.Clean "/../a/b/../././/c" = "/a/c"
  ∧ Filepath.Clean "a/../.." = ".." ∧ Filepath.Clean "" = "." ∧ Filepath.Clean "//" = "/".
Proof. repeat split; reflexivity. Qed.

Example Dir_examples :
  Filepath.Dir "github.com/user/pkg/file.go" = "github.com/user/pkg"
  ∧ Filepath.Dir "file.go" = "." ∧ Filepath.Dir "/file.go" = "/"
  ∧ Filepath.Dir "a//b/../c/file.go" = "a/c" ∧ Filepath.Join ["."; "pkg"] = "pkg".
Proof. repeat split; reflexivity. Qed.

Example Fields_examples :
  Strings.Fields "  foo bar  baz   " = ["foo"; "bar"; "baz"]
  ∧ Strings.Fields "github.com/user/pkg/file.go:10.2,12.16 3 1"
      = ["github.com/user/pkg/file.go:10.2,12.16"; "3"; "1"]
  ∧ Strings.TrimSpace "  pb " = "pb"
  ∧ Strings.Split "a,b,,c" "," = ["a"; "b"; ""; "c"]
  ∧ Strings.LastIndex "go gopher" "go" = 3 ∧ Strings.LastIndex "go gopher" "rodent" = -1.
Proof. repeat split; reflexivity. Qed.

Example Atoi_examples :
  Strconv.Atoi "10" = Some 10 ∧ Strconv.Atoi "-7" = Some (-7) ∧ Strconv.Atoi "+7" = Some 7
  ∧ Strconv.Atoi "" = None ∧ Strconv.Atoi "1_000" = None ∧ Strconv.Atoi "3.5" = None
  ∧ Strconv.Atoi "9223372036854775807" = Some maxInt
  ∧ Strconv.Atoi "9223372036854775808" = None.
Proof. repeat split; reflexivity. Qed.

Example ScanAll_examples :
  Bufio.ScanAll ("a" +:+ newline +:+ newline +:+ "b") None = (["a"; ""; "b"], None)
  ∧ Bufio.ScanAll ("a" +:+ newline) None = (["a"], None)
  ∧ Bufio.ScanAll "" None = ([], None)
  ∧ Bufio.ScanAll "a" (Some (ErrSys "read error")) = (["a"], Some (ErrSys "read error")).
Proof. repeat split; reflexivity. Qed.

Example findGoPackages_example :
  findGoPackages noIgnore initialGlobals "." sampleTree = (["./."; "./pkg"], None).
Proof. reflexivity. Qed.

Example aggregate_example :
  map_to_list (aggregate (Bufio.ScanAll sampleProfile None).1)
  ≡ₚ [("example.com/m", {| TotalStatements := 3; CoveredStatements := 3 |});
      ("example.com/m/pkg", {| TotalStatements := 6; CoveredStatements := 2 |})].
Proof. vm_compute. apply perm_swap. Qed.

(** ** Strings *)

Lemma lastIndexFrom_absent (s : string) (c : ascii) (i : Z) :
  Strings.Contains s (String c EmptyString) = false →
  Strings.lastIndexFrom s (String c EmptyString) i = -1.
Proof.
  revert i. induction s as [|d s IH]; intros i H; [done|].
  cbn [Strings.Contains] in H. apply orb_false_iff in H as [Hd Hs].
  cbn [Strings.lastIndexFrom]. rewrite (IH _ Hs). by rewrite Hd.
Qed.

Lemma LastIndex_absent (s : string) (c : ascii) :
  Strings.Contains s (String c EmptyString) = false →
  Strings.LastIndex s (String c EmptyString) = -1.
Proof. apply lastIndexFrom_absent. Qed.

Lemma digits_allDigits (s : string) (acc n : Z) :
  Strconv.digits s acc = Some n → allDigits s = true.
Proof.
  revert acc. induction s as [|c s IH]; intros acc H; [done|].
  simpl in *. destruct (Strconv.isDigit c); [|done]. simpl. by eapply IH.
Qed.

(** [Atoi] accepts decimal integers only. *)
Lemma Atoi_isDecimal (s : string) : isDecimal s = false → Strconv.Atoi s = None.
Proof.
  intros H. destruct (Strconv.Atoi s) as [v|] eqn:Hv; [|done]. exfalso.
  assert (isDecimal s = true) as Hd; [|congruence]. clear H.
  unfold Strconv.Atoi, isDecimal in *.
  set (split := match s with
                | String "-" r => (true, r)
                | String "+" r => (false, r)
                | _ => (false, s)
                end) in Hv.
  assert (split.2 = match s with String "-" r | String "+" r => r | _ => s end) as Hbody.
  { subst split. destruct s as [|[[] [] [] [] [] [] [] []] s]; reflexivity. }
  rewrite <- Hbody. destruct split as [neg body]. cbn [snd].
  destruct body as [|c body]; [done|].
  destruct (Strconv.digits (String c body) 0) as [n|] eqn:Hn; [|done].
  rewrite (digits_allDigits _ _ _ Hn). by rewrite bool_decide_eq_false_2.
Qed.

Lemma append_cons (c : ascii) (s t : string) : String c s +:+ t = String c (s +:+ t).
Proof. reflexivity. Qed.

Lemma append_nil_l (s : string) : "" +:+ s = s.
Proof. reflexivity. Qed.

Lemma append_nil_r (s : string) : s +:+ "" = s.
Proof. induction s as [|c s IH]; [done|]. by rewrite append_cons, IH. Qed.

Lemma append_assoc (s t u : string) : (s +:+ t) +:+ u = s +:+ (t +:+ u).
Proof. induction s as [|c s IH]; [done|]. by rewrite !append_cons, IH. Qed.

Lemma length_append (s t : string) :
  String.length (s +:+ t) = (String.length s + String.length t)%nat.
Proof. induction s as [|c s IH]; [done|]. rewrite append_cons. simpl. by rewrite IH. Qed.

Lemma HasPrefix_byte (d c : ascii) (s : string) :
  Strings.HasPrefix (String d s) (String c EmptyString) = Ascii.eqb d c.
Proof. simpl. by destruct (Ascii.eqb d c). Qed.

Lemma Contains_cons (d c : ascii) (s : string) :
  Strings.Contains (String d s) (String c EmptyString) =
    Ascii.eqb d c || Strings.Contains s (String c EmptyString).
Proof. cbn [Strings.Contains]. by rewrite HasPrefix_byte. Qed.

Lemma Contains_append (s t : string) (c : ascii) :
  Strings.Contains (s +:+ t) (String c EmptyString) =
    Strings.Contains s (String c EmptyString) || Strings.Contains t (String c EmptyString).
Proof.
  induction s as [|d s IH].
  - rewrite append_nil_l. done.
  - rewrite append_cons, !Contains_cons, IH. by rewrite orb_assoc.
Qed.

Lemma splitFrom_nonempty (sep : string) (skip : nat) (s : string) :
  Strings.splitFrom sep skip s ≠ [].
Proof.
  revert skip. induction s as [|d s IH]; intros skip; [done|].
  cbn [Strings.splitFrom]. destruct skip as [|k]; [|apply IH].
  destruct (Strings.HasPrefix (String d s) sep); [done|].
  specialize (IH O). by destruct (Strings.splitFrom sep 0 s).
Qed.

Lemma Split_absent (s : string) (c : ascii) :
  Strings.Contains s (String c EmptyString) = false →
  Strings.Split s (String c EmptyString) = [s].
Proof.
  unfold Strings.Split. induction s as [|d s IH]; intros H; [done|].
  cbn [Strings.Contains] in H. apply orb_false_iff in H as [Hd Hs].
  cbn [Strings.splitFrom]. by rewrite Hd, (IH Hs).
Qed.

(** Splitting on one byte distributes over an occurrence of it. *)
Lemma Split_append (x y : string) (c : ascii) :
  Strings.Split (x +:+ String c y) (String c EmptyString) =
    Strings.Split x (String c EmptyString) ++ Strings.Split y (String c EmptyString).
Proof.
  unfold Strings.Split. induction x as [|d x IH].
  - rewrite append_nil_l. cbn [Strings.splitFrom]. rewrite HasPrefix_byte, Ascii.eqb_refl.
    done.
  - rewrite append_cons. cbn [Strings.splitFrom]. rewrite !HasPrefix_byte.
    destruct (Ascii.eqb d c).
    + cbn [String.length Nat.sub]. by rewrite IH.
    + rewrite IH.
      pose proof (splitFrom_nonempty (String c EmptyString) 0 x) as Hne.
      by destruct (Strings.splitFrom (String c EmptyString) 0 x).
Qed.

Lemma Join_snoc (names : list string) (name sep : string) :
  names ≠ [] →
  Strings.Join (names ++ [name]) sep = Strings.Join names sep +:+ sep +:+ name.
Proof.
  induction names as [|n names IH]; [done|]. intros _.
  destruct names as [|n' names]; [done|].
  change (Strings.Join ((n :: n' :: names) ++ [name]) sep)
    with (n +:+ sep +:+ Strings.Join ((n' :: names) ++ [name]) sep).
  rewrite IH by done.
  change (Strings.Join (n :: n' :: names) sep) with (n +:+ sep +:+ Strings.Join (n' :: names) sep).
  by rewrite !append_assoc.
Qed.

(** Splitting what was joined gives the elements back. *)
Lemma Split_Join (names : list string) (c : ascii) :
  names ≠ [] →
  Forall (λ n, Strings.Contains n (String c EmptyString) = false) names →
  Strings.Split (Strings.Join names (String c EmptyString)) (String c EmptyString) = names.
Proof.
  induction names as [|n names IH]; [done|]. intros _ Hnames.
  apply Forall_cons in Hnames as [Hn Hnames].
  destruct names as [|n' names].
  - by apply Split_absent.
  - change (Strings.Join (n :: n' :: names) (String c EmptyString))
      with (n +:+ String c (Strings.Join (n' :: names) (String c EmptyString))).
    rewrite Split_append, (Split_absent _ _ Hn), IH by done. done.
Qed.

(** ** Paths *)

Lemma validName_inv (name : string) :
  validName name = true →
  name ≠ "" ∧ name ≠ "." ∧ name ≠ ".." ∧ Strings.Contains name "/" = false.
Proof.
  unfold validName. rewrite !andb_true_iff, !negb_true_iff, !bool_decide_eq_false.
  tauto.
Qed.

Lemma cleanStep_valid (rooted : bool) (stack : list string) (name : string) :
  validName name = true → Filepath.cleanStep rooted stack name = name :: stack.
Proof.
  intros (H1 & H2 & H3 & _)%validName_inv. unfold Filepath.cleanStep.
  by rewrite !bool_decide_eq_false_2.
Qed.

Lemma foldl_cleanStep_valid (rooted : bool) (stack names : list string) :
  Forall (λ n, validName n = true) names →
  foldl (Filepath.cleanStep rooted) stack names = rev names ++ stack.
Proof.
  revert stack. induction names as [|n names IH]; intros stack Hnames; [done|].
  apply Forall_cons in Hnames as [Hn Hnames]. cbn [foldl].
  rewrite (cleanStep_valid _ _ _ Hn), IH by done. simpl. by rewrite <- app_assoc.
Qed.

Lemma Join_valid_head (names : list string) :
  names ≠ [] →
  Forall (λ n, validName n = true) names →
  ∃ c s, Strings.Join names "/" = String c s ∧ Ascii.eqb c "/" = false.
Proof.
  destruct names as [|n names]; [done|]. intros _ Hnames.
  apply Forall_cons in Hnames as [(Hne & _ & _ & Hslash)%validName_inv _].
  destruct n as [|c n]; [done|].
  rewrite Contains_cons in Hslash. apply orb_false_iff in Hslash as [Hc _].
  destruct names as [|n' names]; [by exists c, n|].
  exists c, (n +:+ "/" +:+ Strings.Join (n' :: names) "/"). done.
Qed.

Lemma Forall_valid_noSlash (names : list string) :
  Forall (λ n, validName n = true) names →
  Forall (λ n, Strings.Contains n "/" = false) names.
Proof.
  intros H. eapply Forall_impl; [exact H|]. by intros n (_ & _ & _ & Hn)%validName_inv.
Qed.

(** A path made of valid names is clean. *)
Lemma Clean_valid (names : list string) :
  names ≠ [] →
  Forall (λ n, validName n = true) names →
  Filepath.Clean (Strings.Join names "/") = Strings.Join names "/".
Proof.
  intros Hne Hnames. unfold Filepath.Clean.
  destruct (Join_valid_head names Hne Hnames) as (c & s & Heq & Hc).
  rewrite (Split_Join names "/" Hne (Forall_valid_noSlash _ Hnames)).
  rewrite foldl_cleanStep_valid, app_nil_r, rev_involutive by done.
  assert (Strings.HasPrefix (Strings.Join names "/") "/" = false) as ->
    by (by rewrite Heq, HasPrefix_byte).
  by rewrite !bool_decide_eq_false_2 by (by rewrite Heq).
Qed.

Lemma Clean_pathOf (names : list string) :
  Forall (λ n, validName n = true) names →
  Filepath.Clean (pathOf names) = pathOf names.
Proof.
  destruct names as [|n names]; [done|]. intros H. by apply Clean_valid.
Qed.

(** A trailing separator does not change the cleaned path. *)
Lemma Clean_trailing_slash (p : string) :
  p ≠ "" → Filepath.Clean (p +:+ "/") = Filepath.Clean p.
Proof.
  intros Hp. unfold Filepath.Clean.
  destruct p as [|c p]; [done|].
  rewrite append_cons, !HasPrefix_byte. rewrite <- append_cons.
  rewrite !bool_decide_eq_false_2 by done.
  rewrite (Split_append (String c p) "" "/"), foldl_app.
  change (Strings.Split "" "/") with [""]. cbn [foldl].
  change (Filepath.cleanStep (Ascii.eqb c "/") ?stack "") with stack. done.
Qed.

Lemma pathOf_nonempty (names : list string) :
  Forall (λ n, validName n = true) names → pathOf names ≠ "".
Proof.
  destruct names as [|n names]; [done|]. intros H.
  destruct (Join_valid_head (n :: names)) as (c & s & Heq & _); [done..|].
  unfold pathOf. by rewrite Heq.
Qed.

Lemma Join_pathOf (names : list string) (name : string) :
  Forall (λ n, validName n = true) names →
  validName name = true →
  Filepath.Join [pathOf names; name] = pathOf (names ++ [name]).
Proof.
  intros Hnames Hname. unfold Filepath.Join. cbn [Filepath.dropEmpty].
  rewrite bool_decide_eq_false_2 by (by apply pathOf_nonempty).
  destruct names as [|n names].
  - cbn [pathOf app Strings.Join]. unfold Filepath.Clean.
    rewrite bool_decide_eq_false_2 by done.
    change ("." +:+ "/" +:+ name) with ("." +:+ String "/" name).
    rewrite (Split_append "." name "/").
    pose proof (validName_inv _ Hname) as (Hne & _ & _ & Hslash).
    rewrite (Split_absent _ _ Hslash).
    change (Strings.Split "." "/") with ["."]. cbn [app foldl].
    change (Filepath.cleanStep ?r [] ".") with (@nil string).
    rewrite (cleanStep_valid _ _ _ Hname). cbn [rev app Strings.Join Strings.HasPrefix].
    change (Ascii.eqb "." "/") with false. cbn iota.
    by rewrite bool_decide_eq_false_2.
  - assert (pathOf ((n :: names) ++ [name]) = Strings.Join ((n :: names) ++ [name]) "/") as ->
      by done.
    change (Strings.Join [pathOf (n :: names); name] "/")
      with (Strings.Join (n :: names) "/" +:+ "/" +:+ name).
    rewrite <- Join_snoc by done. apply Clean_valid; [done|].
    apply Forall_app. split; [done|]. by apply Forall_singleton.
Qed.

(** What [LastIndex] finds for a one-byte substring: nothing, and the
    byte does not occur; or the offset [r] after which it occurs no
    more. *)
Lemma lastIndexFrom_spec (s : string) (c : ascii) (j : Z) :
  0 ≤ j →
  (Strings.lastIndexFrom s (String c EmptyString) j = -1
   ∧ Strings.Contains s (String c EmptyString) = false)
  ∨ (j ≤ Strings.lastIndexFrom s (String c EmptyString) j
     ∧ ∃ rest,
         s = Strings.sliceTo s (Z.to_nat (Strings.lastIndexFrom s (String c EmptyString) j - j))
             +:+ String c rest
         ∧ Strings.Contains rest (String c EmptyString) = false).
Proof.
  revert j. induction s as [|d s IH]; intros j Hj; [by left|].
  cbn [Strings.lastIndexFrom]. rewrite HasPrefix_byte, Contains_cons.
  destruct (IH (j + 1)) as [[Hr Hs]|[Hr (rest & Heq & Hrest)]]; [lia|..].
  - rewrite Hr. change (0 <=? -1) with false. cbn iota.
    destruct (Ascii.eqb d c) eqn:Hd.
    + right. split; [lia|]. exists s. rewrite Z.sub_diag. split; [|done].
      apply Ascii.eqb_eq in Hd as ->. done.
    + left. by rewrite Hs.
  - set (r := Strings.lastIndexFrom s (String c EmptyString) (j + 1)) in *.
    assert ((0 <=? r) = true) as -> by (apply Z.leb_le; lia).
    right. split; [lia|]. exists rest. split; [|done].
    replace (Z.to_nat (r - j)) with (S (Z.to_nat (r - (j + 1)))) by lia.
    cbn [Strings.sliceTo]. by rewrite append_cons, <- Heq.
Qed.

Lemma lastIndexFrom_append (d base : string) (c : ascii) (j : Z) :
  0 ≤ j →
  Strings.Contains base (String c EmptyString) = false →
  Strings.lastIndexFrom (d +:+ String c base) (String c EmptyString) j
    = j + Z.of_nat (String.length d).
Proof.
  intros Hj Hbase. revert j Hj. induction d as [|x d IH]; intros j Hj.
  - rewrite append_nil_l. cbn [Strings.lastIndexFrom String.length].
    rewrite (lastIndexFrom_absent _ _ _ Hbase), HasPrefix_byte, Ascii.eqb_refl.
    change (0 <=? -1) with false. cbn iota. lia.
  - rewrite append_cons. cbn [Strings.lastIndexFrom String.length].
    rewrite IH by lia.
    assert ((0 <=? j + 1 + Z.of_nat (String.length d)) = true) as -> by (apply Z.leb_le; lia).
    lia.
Qed.

Lemma sliceTo_append (d t : string) (n : nat) :
  Strings.sliceTo (d +:+ t) (String.length d + n) = d +:+ Strings.sliceTo t n.
Proof.
  induction d as [|x d IH].
  - by rewrite !append_nil_l.
  - rewrite !append_cons. cbn [String.length Nat.add Strings.sliceTo]. by rewrite IH.
Qed.

(** [Dir] of a path without separator. *)
Lemma Dir_flat (p : string) : Strings.Contains p "/" = false → Filepath.Dir p = ".".
Proof.
  intros H. unfold Filepath.Dir. rewrite (LastIndex_absent _ _ H). reflexivity.
Qed.

(** [Dir] drops the last element and cleans the rest. *)
Lemma Dir_split (d base : string) :
  Strings.Contains base "/" = false →
  Filepath.Dir (d +:+ "/" +:+ base) = Filepath.Clean (d +:+ "/").
Proof.
  intros H. unfold Filepath.Dir, Strings.LastIndex.
  change (d +:+ "/" +:+ base) with (d +:+ String "/" base).
  rewrite (lastIndexFrom_append _ _ _ _ (Z.le_refl 0) H).
  replace (Z.to_nat (0 + Z.of_nat (String.length d) + 1)) with (String.length d + 1)%nat by lia.
  by rewrite sliceTo_append.
Qed.

Lemma Dir_pathOf (names : list string) (name : string) :
  Forall (λ n, validName n = true) names →
  validName name = true →
  Filepath.Dir (pathOf (names ++ [name])) = pathOf names.
Proof.
  intros Hnames Hname.
  pose proof (validName_inv _ Hname) as (_ & _ & _ & Hslash).
  destruct names as [|n names].
  - by apply Dir_flat.
  - assert (pathOf ((n :: names) ++ [name]) = Strings.Join (n :: names) "/" +:+ "/" +:+ name) as ->
      by (by apply Join_snoc).
    rewrite (Dir_split _ _ Hslash).
    rewrite Clean_trailing_slash by (by apply (pathOf_nonempty (n :: names))).
    by apply Clean_valid.
Qed.

Lemma HasSuffix_child (p name : string) :
  Strings.HasSuffix (p +:+ "/" +:+ name) ".go" = Strings.HasSuffix name ".go".
Proof.
  induction p as [|c p IH].
  - rewrite append_nil_l. change ("/" +:+ name) with (String "/" name).
    cbn [Strings.HasSuffix]. done.
  - rewrite append_cons. cbn [Strings.HasSuffix]. rewrite IH.
    destruct (String.eqb (String c (p +:+ "/" +:+ name)) ".go") eqn:Heq; [|done].
    apply String.eqb_eq in Heq.
    assert (Strings.Contains (String c (p +:+ "/" +:+ name)) "/" = true) as Hc.
    { rewrite <- append_cons, Contains_append.
      change ("/" +:+ name) with (String "/" name). rewrite (Contains_cons "/" "/").
      by rewrite orb_true_r. }
    rewrite Heq in Hc. done.
Qed.

Lemma HasSuffix_pathOf (names : list string) (name : string) :
  Strings.HasSuffix (pathOf (names ++ [name])) ".go" = Strings.HasSuffix name ".go".
Proof.
  destruct names as [|n names]; [done|].
  assert (pathOf ((n :: names) ++ [name]) = Strings.Join (n :: names) "/" +:+ "/" +:+ name) as ->
    by (by apply Join_snoc).
  apply HasSuffix_child.
Qed.

Lemma HasPrefix_startsWith (s prefix : string) :
  Strings.HasPrefix s prefix = true ↔ startsWith prefix s.
Proof.
  unfold startsWith. revert s. induction prefix as [|c prefix IH]; intros s.
  - split; [intros _; by exists s|done].
  - destruct s as [|d s]; cbn [Strings.HasPrefix].
    + split; [done|]. by intros [rest Hrest].
    + destruct (Ascii.eqb_spec d c) as [->|Hne].
      * rewrite IH. split; intros [rest Hrest]; exists rest.
        -- by rewrite append_cons, <- Hrest.
        -- rewrite append_cons in Hrest. by injection Hrest.
      * split; [done|]. intros [rest Hrest]. rewrite append_cons in Hrest.
        by injection Hrest.
Qed.


Lemma Contains_here (s substr : string) :
  Strings.HasPrefix s substr = true → Strings.Contains s substr = true.
Proof. intros H. destruct s; cbn [Strings.Contains]; by rewrite H. Qed.

Lemma Contains_later (c : ascii) (s substr : string) :
  Strings.Contains s substr = true → Strings.Contains (String c s) substr = true.
Proof. intros H. cbn [Strings.Contains]. rewrite H. apply orb_true_r. Qed.

Lemma Contains_substringOf (s substr : string) :
  Strings.Contains s substr = true ↔ substringOf substr s.
Proof.
  unfold substringOf. split.
  - induction s as [|c s IH]; cbn [Strings.Contains].
    + rewrite orb_false_r. intros [post Hpost]%HasPrefix_startsWith.
      exists "", post. by rewrite append_nil_l.
    + intros [[post Hpost]%HasPrefix_startsWith|H]%orb_true_iff.
      * exists "", post. by rewrite append_nil_l.
      * destruct (IH H) as (pre & post & ->). exists (String c pre), post.
        by rewrite append_cons.
  - intros (pre & post & ->). induction pre as [|c pre IH].
    + rewrite append_nil_l. apply Contains_here, HasPrefix_startsWith. by exists post.
    + rewrite append_cons. by apply Contains_later.
Qed.

Lemma substringOf_append (a b s : string) : substringOf (a +:+ b) s → substringOf b s.
Proof.
  intros (pre & post & ->). exists (pre +:+ a), post. by rewrite !append_assoc.
Qed.

(** ** [parseFlags] *)

Lemma appendPatterns_spec (patterns : list string) (value : string) :
  appendPatterns patterns value = patterns ++ patternsOf value.
Proof.
  unfold appendPatterns, patternsOf.
  generalize (Strings.Split value ",") as pieces.
  intros pieces. revert patterns.
  induction pieces as [|p pieces IH]; intros patterns; simpl.
  - by rewrite app_nil_r.
  - rewrite IH, filter_cons. case_bool_decide; case_decide; try done.
    by rewrite <- app_assoc.
Qed.

Lemma parseFlagsLoop_spec (args : list string) (fuel i : nat) (g : Globals) (acc : list string) :
  (length args - i ≤ fuel)%nat →
  parseFlagsLoop fuel args i g acc =
    (afterTokens g (tokenize (drop i args)),
     acc ++ concat (tokenPass <$> tokenize (drop i args))).
Proof.
  revert i g acc.
  induction fuel as [|fuel IH]; intros i g acc Hfuel; simpl.
  - rewrite drop_ge by lia. simpl. destruct g; unfold afterTokens; simpl.
    by rewrite orb_false_r, !app_nil_r.
  - destruct (args !! i) as [arg|] eqn:Harg.
    + pose proof (lookup_lt_Some _ _ _ Harg) as Hlt.
      rewrite (drop_S _ _ _ Harg). simpl.
      destruct (isDetail arg) eqn:Hd.
      { rewrite IH by lia. rewrite Nat.add_1_r. unfold afterTokens; simpl.
        by rewrite orb_true_r. }
      destruct (isIgnore arg) eqn:Hi.
      { destruct (args !! (i + 1)%nat) as [value|] eqn:Hvalue.
        - pose proof (lookup_lt_Some _ _ _ Hvalue).
          rewrite Nat.add_1_r in Hvalue. rewrite (drop_S _ _ _ Hvalue).
          rewrite IH by lia. rewrite !Nat.add_1_r. unfold afterTokens; simpl.
          by rewrite appendPatterns_spec, <- app_assoc.
        - apply lookup_ge_None in Hvalue.
          rewrite IH by lia. rewrite Nat.add_1_r, drop_ge by lia.
          by unfold afterTokens. }
      destruct (isIgnoreEq arg) eqn:He.
      { rewrite IH by lia. rewrite Nat.add_1_r. unfold afterTokens; simpl.
        by rewrite appendPatterns_spec, <- app_assoc. }
      rewrite IH by lia. rewrite Nat.add_1_r. simpl. by rewrite <- app_assoc.
    + apply lookup_ge_None in Harg. rewrite drop_ge by lia. simpl.
      destruct g; unfold afterTokens; simpl. by rewrite orb_false_r, !app_nil_r.
Qed.

Lemma parseFlags_afterTokens (g : Globals) (args : list string) :
  parseFlags g args = (afterTokens g (tokenize args), concat (tokenPass <$> tokenize args)).
Proof. unfold parseFlags. rewrite parseFlagsLoop_spec by lia. by rewrite drop_0. Qed.

(** Induction along [tokenize], which may take two arguments at once. *)
Lemma tokenize_ind (P : list string → Prop) :
  P [] →
  (∀ arg rest, P rest → (∀ value rest', rest = value :: rest' → P rest') → P (arg :: rest)) →
  ∀ args, P args.
Proof.
  intros Hnil Hstep args.
  assert (P args ∧ match args with [] => True | _ :: rest => P rest end) as [H _]; [|done].
  induction args as [|arg rest [IH IHtail]]; [done|]. split; [|done].
  apply Hstep; [done|]. by intros value rest' ->.
Qed.







(** What the loop does on concrete command lines. *)
Example parseFlags_examples :
  parseFlags initialGlobals ["-v"; "-i=foo, bar,,baz "; "--ignore"; "x"; "-run"; "T"; "-d"]
  = ({| verbose := true; ignorePatterns := ["foo"; "bar"; "baz"; "x"] |}, ["-v"; "-run"; "T"])
  ∧ parseFlags initialGlobals ["-ignore=cmd"; "-i"; "-d"; "-i"]
  = ({| verbose := false; ignorePatterns := ["cmd"; "-d"] |}, [])
  ∧ parseFlags initialGlobals ["-i=a=b"; "--detail=x"; "-ignore"; " , "; "-detail"]
  = ({| verbose := true; ignorePatterns := ["a=b"] |}, ["--detail=x"]).
Proof. repeat split. Qed.


(** ** [run] and [main] *)

(** The shape of a run that found packages: the announcement, the
    test run, the filtered output of a failed quiet run, the verdict,
    and the rest, which no longer looks at the test run. *)
Lemma run_shape (shouldIgnore : list string → string → bool) (g : Globals) (w : World)
    (userArgs pkgs : list string) :
  findGoPackages shouldIgnore g "." (tree w) = (pkgs, None) →
  pkgs ≠ [] →
  run shouldIgnore g w userArgs =
    (announcement g userArgs pkgs
     ++ [CmdRun "go" (testArgs userArgs pkgs) (if verbose g then Inherit else Capture)]
     ++ (if verbose g then []
         else match (cmdRun w "go" (testArgs userArgs pkgs)).2 with
              | Some _ => testErrorsBlock (cmdRun w "go" (testArgs userArgs pkgs)).1
              | None => []
              end)
     ++ [verdict (cmdRun w "go" (testArgs userArgs pkgs)).2]
     ++ (afterTests g w).1,
     (afterTests g w).2).
Proof.
  intros Hfind Hne. unfold run, afterTests, announcement, summaryOutput. rewrite Hfind.
  rewrite bool_decide_eq_false_2 by (by destruct pkgs).
  destruct (cmdRun w "go" (testArgs userArgs pkgs)) as [testOutput testErr].
  destruct (statNotExist w coverProfile);
    destruct (displayCoverageStats w coverProfile) as [shown [parseErr|]];
    destruct (cmdRun w "go" coverArgs) as [coverOut [coverErr|]];
    destruct (openBrowser w coverHTML) as [opened [openErr|]];
    destruct (verbose g); destruct testErr as [e|];
    unfold bind, emit, emits, ret, printTestErrors, testErrorsBlock, verdict, parseWarning;
    cbn -[String.append Strings.Repeat Strings.Join Strings.Split filter testArgs coverArgs];
    rewrite ?app_nil_r, <- ?app_assoc; reflexivity.
Qed.

Lemma commands_announcement (g : Globals) (userArgs pkgs : list string) :
  commands (announcement g userArgs pkgs) = [].
Proof.
  unfold announcement, commands.
  destruct (verbose g); simpl; [|done].
  rewrite omap_app. simpl.
  rewrite app_nil_r. induction pkgs as [|pkg pkgs IH]; [done|]. simpl. apply IH.
Qed.

Lemma main_exit (shouldIgnore : list string → string → bool) (w : World) (osArgs : list string) :
  (main shouldIgnore w osArgs).2 =
    if existsb isHelp (parseFlags initialGlobals osArgs).2 then 0
    else match (run shouldIgnore (parseFlags initialGlobals osArgs).1 w
                    (parseFlags initialGlobals osArgs).2).2 with
         | Some _ => 1
         | None => 0
         end.
Proof.
  unfold main. fold initialGlobals.
  destruct (parseFlags initialGlobals osArgs) as [g args]. simpl.
  destruct (existsb isHelp args); [done|].
  destruct (run shouldIgnore g w args) as [out [e|]]; done.
Qed.

Lemma main_output (shouldIgnore : list string → string → bool) (w : World) (osArgs : list string) :
  existsb isHelp (parseFlags initialGlobals osArgs).2 = false →
  ∃ report : list event,
    commands report = [] ∧
    (main shouldIgnore w osArgs).1 =
      (run shouldIgnore (parseFlags initialGlobals osArgs).1 w
           (parseFlags initialGlobals osArgs).2).1 ++ report.
Proof.
  unfold main. fold initialGlobals.
  destruct (parseFlags initialGlobals osArgs) as [g args]. simpl. intros ->.
  destruct (run shouldIgnore g w args) as [out [e|]]; simpl.
  - eexists. split; [|reflexivity]. done.
  - exists []. by rewrite app_nil_r.
Qed.

(** C4. When packages were found, the first process the tool starts is
    [go] with the arguments [test], [-coverprofile=/tmp/cover.out],
    [-covermode=atomic], then the pass-through arguments in their
    order, then the packages found; this holds for [run] on any
    arguments and for [main] on a command line without a help flag,
    whose pass-through arguments are those [parseFlags] returns. *)
Theorem test_command_line (shouldIgnore : list string → string → bool) (w : World)
    (g : Globals) (userArgs osArgs pkgs pkgs' : list string) :
  findGoPackages shouldIgnore g "." (tree w) = (pkgs, None) →
  pkgs ≠ [] →
  existsb isHelp (parseFlags initialGlobals osArgs).2 = false →
  findGoPackages shouldIgnore (parseFlags initialGlobals osArgs).1 "." (tree w) = (pkgs', None) →
  pkgs' ≠ [] →
  head (commands (run shouldIgnore g w userArgs).1) =
    Some ("go", ["test"; "-coverprofile=/tmp/cover.out"; "-covermode=atomic"] ++ userArgs ++ pkgs)
  ∧ head (commands (main shouldIgnore w osArgs).1) =
    Some ("go", ["test"; "-coverprofile=/tmp/cover.out"; "-covermode=atomic"]
                ++ concat (tokenPass <$> tokenize osArgs) ++ pkgs').
Proof.
  intros Hfind Hne Hhelp Hfind' Hne'. split.
  - rewrite (run_shape _ _ _ _ _ Hfind Hne). simpl.
    unfold commands. rewrite omap_app. fold (commands (announcement g userArgs pkgs)).
    by rewrite commands_announcement.
  - destruct (main_output shouldIgnore w osArgs Hhelp) as (report & _ & ->).
    rewrite (run_shape _ _ _ _ _ Hfind' Hne'). simpl.
    unfold commands. rewrite <- !app_assoc, omap_app.
    fold (commands (announcement (parseFlags initialGlobals osArgs).1
                                 (parseFlags initialGlobals osArgs).2 pkgs')).
    rewrite commands_announcement. simpl.
    unfold parseFlags. rewrite parseFlagsLoop_spec by lia. by rewrite drop_0.
Qed.

Lemma test_command_line_witness :
  head (commands (run noIgnore initialGlobals (sampleWorld None) ["-v"]).1) =
    Some ("go", ["test"; "-coverprofile=/tmp/cover.out"; "-covermode=atomic"]
                ++ ["-v"] ++ ["./."; "./pkg"])
  ∧ head (commands (main noIgnore (sampleWorld None) ["-i"; "x,y"; "-v"; "-d"]).1) =
    Some ("go", ["test"; "-coverprofile=/tmp/cover.out"; "-covermode=atomic"]
                ++ concat (tokenPass <$> tokenize ["-i"; "x,y"; "-v"; "-d"]) ++ ["./."; "./pkg"]).
Proof.
  apply (test_command_line noIgnore (sampleWorld None) initialGlobals ["-v"]
           ["-i"; "x,y"; "-v"; "-d"] ["./."; "./pkg"] ["./."; "./pkg"]).
  - vm_compute. reflexivity.
  - discriminate.
  - vm_compute. reflexivity.
  - vm_compute. reflexivity.
  - discriminate.
Defined.

Lemma testArgs_not_coverArgs (userArgs pkgs : list string) : coverArgs ≠ testArgs userArgs pkgs.
Proof. unfold testArgs, coverArgs. simpl. discriminate. Qed.

Lemma afterTests_withTestOutput (g : Globals) (w : World) (userArgs pkgs : list string)
    (output : string) :
  afterTests g (withTestOutput w (testArgs userArgs pkgs) output) = afterTests g w.
Proof.
  assert (bool_decide ("go" = "go" ∧ coverArgs = testArgs userArgs pkgs) = false) as Hother.
  { apply bool_decide_eq_false_2. intros H. destruct H as [_ H].
    by apply testArgs_not_coverArgs in H. }
  unfold afterTests, summaryOutput, displayCoverageStats, openBrowser, withTestOutput.
  cbn [cmdRun cmdStart GOOS statNotExist openFile tree].
  by rewrite Hother.
Qed.

(** The test of [printTestErrors], as the lines it accepts. *)
Lemma isErrorLine_spec (line : string) : isErrorLine line = true ↔ errorRelated line.
Proof.
  unfold isErrorLine, errorRelated.
  rewrite !orb_true_iff, !Contains_substringOf, !HasPrefix_startsWith. split.
  - intros [[[[[[[[H|H]|H]|H]|H]|H]|H]|H]|H].
    + left. exists "FAIL". split; [|done]. by left.
    + left. exists "Error". split; [|done]. by right; left.
    + left. exists "error". split; [|done]. by right; right; left.
    + left. exists "panic". split; [|done]. by right; right; right; left.
    + left. exists "FAIL". split; [by left|]. by apply (substringOf_append "--- ").
    + right. exists "got:". split; [|done]. by left.
    + right. exists "want:". split; [|done]. by right; left.
    + right. exists "expected". split; [|done]. by right; right; left.
    + left. exists "_test.go:". split; [|done]. by right; right; right; right; left.
  - intros [(word & Hword & H)|(word & Hword & H)].
    + apply elem_of_cons in Hword as [->|Hword]; [tauto|].
      apply elem_of_cons in Hword as [->|Hword]; [tauto|].
      apply elem_of_cons in Hword as [->|Hword]; [tauto|].
      apply elem_of_cons in Hword as [->|Hword]; [tauto|].
      apply elem_of_cons in Hword as [->|Hword]; [tauto|].
      by apply elem_of_nil in Hword.
    + apply elem_of_cons in Hword as [->|Hword]; [tauto|].
      apply elem_of_cons in Hword as [->|Hword]; [tauto|].
      apply elem_of_cons in Hword as [->|Hword]; [tauto|].
      by apply elem_of_nil in Hword.
Qed.

Lemma filter_keeps (f : string → bool) (P : string → Prop) (lines : list string) :
  (∀ line, f line = true ↔ P line) →
  keeps P lines (filter (λ line, f line = true) lines).
Proof.
  intros Hf. induction lines as [|line lines IH]; [constructor|].
  destruct (f line) eqn:Hline.
  - rewrite filter_cons_True by done. apply keeps_yes; [by apply Hf|done].
  - rewrite filter_cons_False by congruence. apply keeps_no; [|done].
    rewrite <- Hf. congruence.
Qed.

Lemma keeps_filter (f : string → bool) (P : string → Prop) (lines kept : list string) :
  (∀ line, f line = true ↔ P line) →
  keeps P lines kept → kept = filter (λ line, f line = true) lines.
Proof.
  intros Hf. induction 1 as [|line lines kept Hline _ ->|line lines kept Hline _ ->].
  - done.
  - rewrite filter_cons_True; [done|]. by apply Hf.
  - rewrite filter_cons_False; [done|]. by rewrite Hf.
Qed.

(** The filter on lines of a test run. *)
Example isErrorLine_examples :
  isErrorLine "--- FAIL: TestA (0.00s)" = true
  ∧ isErrorLine "        want: 4" = true
  ∧ isErrorLine "panic: runtime error: index out of range" = true
  ∧ isErrorLine "    a_test.go:12: unexpected sum" = true
  ∧ isErrorLine "=== RUN   TestA" = false
  ∧ isErrorLine "ok      example.com/m/pkg      0.004s" = false
  ∧ isErrorLine "we got: nothing" = false
  ∧ isErrorLine "" = false
  ∧ (printTestErrors sampleTestOutput).1
    = [Println "    a_test.go:12: unexpected sum";
       Println "        got: 3";
       Println "--- FAIL: TestA (0.00s)"].
Proof. repeat split. Qed.

(** C6. With the verbosity switch the test runner writes to the
    standard output and error of the tool itself, and the tool prints
    nothing of what the runner wrote; without it the output goes to a
    buffer, of which the tool prints, between two marker lines, the
    error-related lines, each as often as it is there and in their
    order, exactly when the runner ends with an error.  Everything
    else the tool prints is the same whatever the runner wrote. *)
Theorem test_output_streamed_or_buffered (shouldIgnore : list string → string → bool)
    (g : Globals) (w : World) (userArgs pkgs : list string) :
  findGoPackages shouldIgnore g "." (tree w) = (pkgs, None) →
  pkgs ≠ [] →
  ∃ (before after : list event),
    commands before = [] ∧
    ∀ output : string,
      ∃ shown : list string,
        keeps errorRelated (Strings.Split output newline) shown
        ∧ (run shouldIgnore g (withTestOutput w (testArgs userArgs pkgs) output) userArgs).1 =
            before
            ++ [CmdRun "go" (testArgs userArgs pkgs) (if verbose g then Inherit else Capture)]
            ++ (if verbose g then []
                else match (cmdRun w "go" (testArgs userArgs pkgs)).2 with
                     | Some _ =>
                         [Println (newline +:+ "--- TEST ERRORS ---")]
                         ++ (Println <$> shown)
                         ++ [Println "-------------------"]
                     | None => []
                     end)
            ++ after.
Proof.
  intros Hfind Hne.
  exists (announcement g userArgs pkgs),
         ([verdict (cmdRun w "go" (testArgs userArgs pkgs)).2] ++ (afterTests g w).1).
  split; [apply commands_announcement|]. intros output.
  exists (filter (λ line, isErrorLine line = true) (Strings.Split output newline)).
  split; [apply filter_keeps, isErrorLine_spec|].
  rewrite (run_shape shouldIgnore g _ userArgs pkgs) by done.
  rewrite afterTests_withTestOutput. cbn [fst]. unfold withTestOutput at 1 2 3; cbn [cmdRun].
  rewrite bool_decide_eq_true_2 by done. reflexivity.
Qed.

Lemma test_output_streamed_or_buffered_witness :
  ∃ (before after : list event),
    commands before = [] ∧
    (run noIgnore initialGlobals
         (withTestOutput (sampleWorld (Some (ErrSys "exit status 1")))
                         (testArgs [] ["./."; "./pkg"]) sampleTestOutput) []).1 =
      before
      ++ [CmdRun "go" ["test"; "-coverprofile=/tmp/cover.out"; "-covermode=atomic";
                       "./."; "./pkg"] Capture]
      ++ [Println (newline +:+ "--- TEST ERRORS ---");
          Println "    a_test.go:12: unexpected sum";
          Println "        got: 3";
          Println "--- FAIL: TestA (0.00s)";
          Println "-------------------"]
      ++ after.
Proof.
  destruct (test_output_streamed_or_buffered noIgnore initialGlobals
              (sampleWorld (Some (ErrSys "exit status 1"))) [] ["./."; "./pkg"])
    as (before & after & Hbefore & Hout).
  - vm_compute. reflexivity.
  - discriminate.
  - exists before, after. split; [exact Hbefore|].
    destruct (Hout sampleTestOutput) as (shown & Hkeeps & ->).
    apply (keeps_filter isErrorLine) in Hkeeps as ->; [|apply isErrorLine_spec].
    reflexivity.
Defined.

Lemma main_spec (shouldIgnore : list string → string → bool) (w : World) (osArgs : list string) :
  main shouldIgnore w osArgs =
    if existsb isHelp (parseFlags initialGlobals osArgs).2 then ([Println usage], 0)
    else match (run shouldIgnore (parseFlags initialGlobals osArgs).1 w
                    (parseFlags initialGlobals osArgs).2).2 with
         | Some e =>
             ((run shouldIgnore (parseFlags initialGlobals osArgs).1 w
                   (parseFlags initialGlobals osArgs).2).1
              ++ [Eprintf ("Error: %v" +:+ newline) [AErr e]], 1)
         | None =>
             ((run shouldIgnore (parseFlags initialGlobals osArgs).1 w
                   (parseFlags initialGlobals osArgs).2).1, 0)
         end.
Proof.
  unfold main. fold initialGlobals.
  destruct (parseFlags initialGlobals osArgs) as [g args]. cbn [fst snd].
  destruct (existsb isHelp args); [done|].
  destruct (run shouldIgnore g w args) as [out [e|]]; cbn [fst snd]; unfold bind, emit, ret;
    cbn [fst snd]; [done|]. by rewrite app_nil_r.
Qed.

(** A run on a system without a known way to open the report: the
    error is printed last, and the status is 1. *)
Example main_prints_error :
  last (main noIgnore
          {| GOOS := "plan9"; tree := sampleTree;
             cmdRun := λ _ _, ("", None); cmdStart := λ _ _, None;
             statNotExist := λ _, false; openFile := λ _, inl (sampleProfile, None) |} []).1
  = Some (Eprintf ("Error: %v" +:+ newline)
            [AErr (ErrorfW "opening browser: %w" (Errorf "unsupported platform: %s" "plan9"))])
  ∧ (main noIgnore
          {| GOOS := "plan9"; tree := sampleTree;
             cmdRun := λ _ _, ("", None); cmdStart := λ _ _, None;
             statNotExist := λ _, false; openFile := λ _, inl (sampleProfile, None) |} []).2 = 1.
Proof. split; vm_compute; reflexivity. Qed.

(** C2, as amended.  [run] returns the error of finding the packages,
    of generating the HTML report and of opening the browser, each
    wrapped with its context, and an error of its own when the profile
    is missing; [main] prints the error that [run] returns, after
    everything [run] printed, and exits with status 1, and it exits
    with status 0 and prints nothing more when [run] returns none.  A
    failure of the test runner is only reported by the verdict line
    and a failure of reading the profile only by a warning: neither
    changes what [run] returns. *)
Theorem failures_reported_or_returned (shouldIgnore : list string → string → bool)
    (g : Globals) (w : World) (userArgs osArgs : list string) :
  match findGoPackages shouldIgnore g "." (tree w) with
  | (_, Some e) =>
      (run shouldIgnore g w userArgs).2 = Some (ErrorfW "finding go packages: %w" e)
  | (pkgs, None) =>
      if bool_decide (pkgs = []) then (run shouldIgnore g w userArgs).2 = None
      else
        verdict (cmdRun w "go" (testArgs userArgs pkgs)).2 ∈ (run shouldIgnore g w userArgs).1
        ∧ if statNotExist w coverProfile then
            (run shouldIgnore g w userArgs).2 =
              Some (Errorf "coverage profile not generated at %s" coverProfile)
          else
            parseWarning (displayCoverageStats w coverProfile).2 ⊆ (run shouldIgnore g w userArgs).1
            ∧ (run shouldIgnore g w userArgs).2 =
                match (cmdRun w "go" coverArgs).2 with
                | Some e => Some (ErrorfW "generating coverage HTML: %w" e)
                | None =>
                    match (openBrowser w coverHTML).2 with
                    | Some e => Some (ErrorfW "opening browser: %w" e)
                    | None => None
                    end
                end
  end
  ∧ main shouldIgnore w osArgs =
      if existsb isHelp (parseFlags initialGlobals osArgs).2 then ([Println usage], 0)
      else match (run shouldIgnore (parseFlags initialGlobals osArgs).1 w
                      (parseFlags initialGlobals osArgs).2).2 with
           | Some e =>
               ((run shouldIgnore (parseFlags initialGlobals osArgs).1 w
                     (parseFlags initialGlobals osArgs).2).1
                ++ [Eprintf ("Error: %v" +:+ newline) [AErr e]], 1)
           | None =>
               ((run shouldIgnore (parseFlags initialGlobals osArgs).1 w
                     (parseFlags initialGlobals osArgs).2).1, 0)
           end.
Proof.
  split; [|apply main_spec].
  destruct (findGoPackages shouldIgnore g "." (tree w)) as [pkgs [e|]] eqn:Hfind.
  { unfold run. by rewrite Hfind. }
  case_bool_decide as Hne.
  { unfold run. rewrite Hfind. subst pkgs. done. }
  rewrite (run_shape _ _ _ _ _ Hfind Hne). cbn [fst snd]. split.
  { set_solver. }
  unfold afterTests.
  destruct (statNotExist w coverProfile); [done|].
  destruct (cmdRun w "go" coverArgs) as [coverOut [coverErr|]]; cbn [fst snd];
    (split; [|done]); unfold summaryOutput; set_solver.
Qed.

(** C2, as stated, fails: the test runner ends with an error, the
    tool says so and goes on to the report, and the process ends with
    status 0. *)
Lemma failed_tests_exit_zero :
  (cmdRun (sampleWorld (Some (ErrSys "exit status 1"))) "go"
          (testArgs [] ["./."; "./pkg"])).2 = Some (ErrSys "exit status 1")
  ∧ (main noIgnore (sampleWorld (Some (ErrSys "exit status 1"))) []).2 = 0
  ∧ ¬ failedTestsExitNonZero noIgnore.
Proof.
  split; [reflexivity|]. split; [vm_compute; reflexivity|].
  intros H.
  apply (H (sampleWorld (Some (ErrSys "exit status 1"))) [] ["./."; "./pkg"]).
  - vm_compute. reflexivity.
  - vm_compute. reflexivity.
  - discriminate.
  - vm_compute. eauto.
  - vm_compute. reflexivity.
Qed.

(** ** The coverage aggregator *)

Lemma processLine_parse (m : gmap string CoverageStats) (line : string) :
  processLine m line =
    match parseLine line with
    | Some (filePath, n, c) => bump (Filepath.Dir filePath) n c m
    | None => m
    end.
Proof.
  unfold processLine, parseLine.
  destruct (Strings.HasPrefix line "mode:"); [done|].
  destruct (Strings.Fields line) as [|f [|a [|b [|x parts]]]]; try done.
  cbn [length nth]. rewrite bool_decide_eq_true_2 by done. cbn [negb].
  destruct (Strings.LastIndex f ":" =? -1); [done|].
  destruct (Strconv.Atoi a) as [n|]; [|done].
  destruct (Strconv.Atoi b) as [c|]; [|done].
  unfold bump. apply map_eq. intros k.
  destruct (m !! Filepath.Dir (Strings.sliceTo f (Z.to_nat (Strings.LastIndex f ":")))) as [st|] eqn:Hst;
    destruct (0 <? c); cbn [default];
    destruct (decide (k = Filepath.Dir (Strings.sliceTo f (Z.to_nat (Strings.LastIndex f ":"))))) as [->|Hne];
    rewrite ?lookup_alter_eq, ?lookup_alter_ne, ?lookup_insert_eq, ?lookup_insert_ne, ?Hst by done;
    try done.
Qed.

Lemma wrap_small (z : Z) : minInt ≤ z ≤ maxInt → wrap z = z.
Proof.
  unfold wrap, minInt, maxInt, intSize. intros H.
  rewrite Z.mod_small; lia.
Qed.

Lemma wrap_range (z : Z) : minInt ≤ wrap z ≤ maxInt.
Proof.
  unfold wrap, minInt, maxInt, intSize.
  pose proof (Z.mod_pos_bound (z + 2 ^ (64 - 1)) (2 ^ 64)). lia.
Qed.

Lemma wrap_add_l (a b : Z) : wrap (wrap a + b) = wrap (a + b).
Proof.
  unfold wrap, intSize.
  replace ((a + 2 ^ (64 - 1)) mod 2 ^ 64 - 2 ^ (64 - 1) + b + 2 ^ (64 - 1))
    with ((a + 2 ^ (64 - 1)) mod 2 ^ 64 + b) by lia.
  rewrite Zplus_mod_idemp_l. f_equal. f_equal. lia.
Qed.

Lemma int_add_wrap (a b : Z) : int_add (wrap a) b = wrap (a + b).
Proof. apply wrap_add_l. Qed.

Lemma bump_lookup (k k' : string) (n c : Z) (m : gmap string CoverageStats) :
  bump k n c m !! k' =
    if decide (k = k') then
      Some {| TotalStatements :=
                int_add (TotalStatements (default {| TotalStatements := 0; CoveredStatements := 0 |} (m !! k))) n;
              CoveredStatements :=
                if 0 <? c
                then int_add (CoveredStatements (default {| TotalStatements := 0; CoveredStatements := 0 |} (m !! k))) n
                else CoveredStatements (default {| TotalStatements := 0; CoveredStatements := 0 |} (m !! k)) |}
    else m !! k'.
Proof. unfold bump. by rewrite lookup_insert. Qed.

Lemma aggregate_snoc (lines : list string) (line : string) :
  aggregate (lines ++ [line]) = processLine (aggregate lines) line.
Proof. unfold aggregate. by rewrite foldl_app. Qed.

Lemma sumZ_app (l1 l2 : list Z) : sumZ (l1 ++ l2) = sumZ l1 + sumZ l2.
Proof. unfold sumZ. induction l1 as [|x l1 IH]; simpl; lia. Qed.

Lemma attributed_snoc (k : string) (lines : list string) (line : string) :
  attributed k (lines ++ [line]) =
    attributed k lines ++
    match parseLine line with
    | Some (filePath, n, c) => if bool_decide (Filepath.Dir filePath = k) then [(n, c)] else []
    | None => []
    end.
Proof.
  unfold attributed. rewrite omap_app. f_equal. simpl.
  destruct (parseLine line) as [[[filePath n] c]|]; [|done].
  by case_bool_decide.
Qed.

(** The counter pair of every package after the scan. *)
Lemma aggregate_lookup (lines : list string) (k : string) :
  aggregate lines !! k =
    if bool_decide (attributed k lines = []) then None
    else Some {| TotalStatements := wrap (totalOf k lines);
                 CoveredStatements := wrap (coveredOf k lines) |}.
Proof.
  induction lines as [|line lines IH] using rev_ind.
  - unfold aggregate. simpl. by rewrite lookup_empty.
  - rewrite aggregate_snoc, processLine_parse.
    unfold totalOf, coveredOf in *. rewrite attributed_snoc.
    destruct (parseLine line) as [[[filePath n] c]|]; [|by rewrite app_nil_r].
    rewrite bump_lookup.
    destruct (decide (Filepath.Dir filePath = k)) as [Hk|Hk];
      [rewrite (bool_decide_eq_true_2 _ Hk)
      |rewrite (bool_decide_eq_false_2 _ Hk); by rewrite app_nil_r].
    rewrite Hk, IH.
    rewrite (bool_decide_eq_false_2 (_ ++ [_] = [])) by (intros [_ ?]%app_eq_nil; done).
    rewrite filter_app, !fmap_app, !sumZ_app.
    rewrite filter_cons, filter_nil. cbn [snd fst].
    f_equal.
    case_bool_decide as Hempty.
    + rewrite Hempty. cbn [default TotalStatements CoveredStatements fmap list_fmap filter].
      rewrite filter_nil. simpl. unfold int_add.
      destruct (0 <? c) eqn:Hc.
      * apply Z.ltb_lt in Hc. rewrite decide_True by done. simpl. f_equal; f_equal; lia.
      * apply Z.ltb_ge in Hc. rewrite decide_False by lia. simpl. f_equal; f_equal; lia.
    + simpl. rewrite !int_add_wrap.
      destruct (0 <? c) eqn:Hc.
      * apply Z.ltb_lt in Hc. rewrite decide_True by done. simpl.
        f_equal; f_equal; lia.
      * apply Z.ltb_ge in Hc. rewrite decide_False by lia. simpl.
        f_equal; f_equal; lia.
Qed.

Lemma displayCoverageStats_scanned (w : World) (path content : string)
    (rerr serr : option error) (lines : list string) :
  openFile w path = inl (content, rerr) →
  Bufio.ScanAll content rerr = (lines, serr) →
  displayCoverageStats w path =
    match serr with
    | Some err => ([], Some err)
    | None => report (aggregate lines)
    end.
Proof. intros Hopen Hscan. unfold displayCoverageStats. by rewrite Hopen, Hscan. Qed.

(** C1, as amended.  The map that [displayCoverageStats] builds from
    the lines the scanner yields (all the lines of a profile that is
    read without error) holds a counter pair for a package exactly
    when a well-formed line is attributed to it, and then
    [TotalStatements] is the sum of the statement counts of these
    lines and [CoveredStatements] the sum over those with a positive
    execution count, both reduced to the type [int] by wrap-around:
    they are the sums themselves whenever the sums lie in the range of
    [int].  The function reports on this map unless the scanner ended
    with an error. *)
Theorem package_totals (w : World) (path content : string) (rerr serr : option error)
    (lines : list string) (k : string) :
  openFile w path = inl (content, rerr) →
  Bufio.ScanAll content rerr = (lines, serr) →
  displayCoverageStats w path =
    match serr with
    | Some err => ([], Some err)
    | None => report (aggregate lines)
    end
  ∧ aggregate lines !! k =
      (if bool_decide (attributed k lines = []) then None
       else Some {| TotalStatements := wrap (totalOf k lines);
                    CoveredStatements := wrap (coveredOf k lines) |})
  ∧ (attributed k lines ≠ [] →
     minInt ≤ totalOf k lines ≤ maxInt →
     minInt ≤ coveredOf k lines ≤ maxInt →
     aggregate lines !! k =
       Some {| TotalStatements := totalOf k lines; CoveredStatements := coveredOf k lines |}).
Proof.
  intros Hopen Hscan. split; [|split].
  - apply (displayCoverageStats_scanned _ _ _ _ _ _ Hopen Hscan).
  - apply aggregate_lookup.
  - intros Hne Ht Hc. rewrite aggregate_lookup.
    rewrite bool_decide_eq_false_2 by done. by rewrite !wrap_small.
Qed.

Lemma package_totals_witness :
  aggregate (Bufio.ScanAll sampleProfile None).1 !! "example.com/m/pkg" =
    Some {| TotalStatements := 6; CoveredStatements := 2 |}.
Proof.
  pose proof (package_totals (worldWithProfile sampleProfile) coverProfile sampleProfile None None
                (Bufio.ScanAll sampleProfile None).1 "example.com/m/pkg") as H.
  destruct H as (_ & _ & H).
  - reflexivity.
  - vm_compute. reflexivity.
  - apply H.
    + vm_compute. discriminate.
    + vm_compute. split; discriminate.
    + vm_compute. split; discriminate.
Defined.

(** C1, as stated, fails: two lines of [maxInt] statements each leave
    a total of -2, not their sum. *)
Lemma totals_wrap_around :
  aggregate [bigLine; bigLine] !! "example.com/m"
    = Some {| TotalStatements := -2; CoveredStatements := -2 |}
  ∧ totalOf "example.com/m" [bigLine; bigLine] = 2 * maxInt
  ∧ ¬ totalsAreExactSums.
Proof.
  split; [vm_compute; reflexivity|]. split; [vm_compute; reflexivity|].
  intros H.
  destruct (H [bigLine; bigLine] "example.com/m" {| TotalStatements := -2; CoveredStatements := -2 |})
    as [Ht _].
  - vm_compute. reflexivity.
  - vm_compute in Ht. discriminate.
Qed.

Lemma attributed_elem (k : string) (lines : list string) (n c : Z) :
  (n, c) ∈ attributed k lines →
  ∃ line filePath, line ∈ lines ∧ parseLine line = Some (filePath, n, c).
Proof.
  unfold attributed. intros (line & Hline & Hparse)%list_elem_of_omap.
  destruct (parseLine line) as [[[filePath n'] c']|] eqn:Hp; [|done].
  case_bool_decide; [|done]. injection Hparse as -> ->. eauto.
Qed.

Lemma sumZ_nonneg (l : list (Z * Z)) :
  (∀ p, p ∈ l → 0 ≤ p.1) →
  0 ≤ sumZ ((filter (λ p, 0 < p.2) l).*1) ≤ sumZ (l.*1).
Proof.
  induction l as [|[n c] l IH]; intros Hl; [done|].
  assert (0 ≤ n) by (apply (Hl (n, c)); left).
  assert (0 ≤ sumZ (filter (λ p : Z * Z, 0 < p.2) l).*1 ≤ sumZ l.*1) as IH'.
  { apply IH. intros p Hp. apply Hl. by right. }
  rewrite filter_cons. cbn [snd]. unfold sumZ in *.
  case_decide; rewrite ?fmap_cons; cbn [foldr fst]; lia.
Qed.

(** C9, as amended.  After a profile whose statement counts are
    non-negative and sum, for the package, to at most [maxInt], the
    counter pair of the package holds the exact sums and satisfies
    [0 <= CoveredStatements <= TotalStatements]; and one line with a
    non-negative statement count that does not take the total of its
    package beyond [maxInt] preserves this invariant of every pair. *)
Theorem covered_within_total (lines : list string) (k : string) (st : CoverageStats) :
  nonNegativeCounts lines →
  totalOf k lines ≤ maxInt →
  aggregate lines !! k = Some st →
  (coveredWithinTotal st
   ∧ TotalStatements st = totalOf k lines
   ∧ CoveredStatements st = coveredOf k lines)
  ∧ ∀ (m : gmap string CoverageStats) (line filePath : string) (n c : Z),
      (∀ k' st', m !! k' = Some st' → coveredWithinTotal st') →
      parseLine line = Some (filePath, n, c) →
      0 ≤ n →
      TotalStatements (default {| TotalStatements := 0; CoveredStatements := 0 |}
                               (m !! Filepath.Dir filePath)) + n ≤ maxInt →
      ∀ k' st', processLine m line !! k' = Some st' → coveredWithinTotal st'.
Proof.
  intros Hnn Hmax Hst. split.
  - rewrite aggregate_lookup in Hst. case_bool_decide; [done|]. injection Hst as <-.
    unfold coveredWithinTotal, totalOf, coveredOf in *. cbn [TotalStatements CoveredStatements].
    assert (0 ≤ sumZ (filter (λ p : Z * Z, 0 < p.2) (attributed k lines)).*1
            ≤ sumZ (attributed k lines).*1) as Hsum.
    { apply sumZ_nonneg. intros [n c] (line & filePath & Hline & Hparse)%attributed_elem.
      by eapply Hnn. }
    assert (minInt < 0) by done.
    rewrite !wrap_small by lia. lia.
  - clear. intros m line filePath n c Hinv Hparse Hn Hmax k' st'.
    rewrite processLine_parse, Hparse, bump_lookup.
    case_decide as Hk; [|apply Hinv].
    intros [= <-]. unfold coveredWithinTotal. cbn [TotalStatements CoveredStatements].
    assert (coveredWithinTotal (default {| TotalStatements := 0; CoveredStatements := 0 |}
                                        (m !! Filepath.Dir filePath))) as Hold.
    { destruct (m !! Filepath.Dir filePath) as [old|] eqn:Hold; [by eapply Hinv|done]. }
    unfold coveredWithinTotal in Hold. unfold int_add.
    assert (minInt < 0) by done.
    destruct (0 <? c); rewrite !wrap_small by lia; lia.
Qed.

Lemma covered_within_total_witness :
  coveredWithinTotal {| TotalStatements := 6; CoveredStatements := 2 |}.
Proof.
  refine (proj1 (proj1 (covered_within_total (Bufio.ScanAll sampleProfile None).1
                          "example.com/m/pkg" _ _ _ _))).
  - intros line filePath n c Hline Hparse.
    vm_compute in Hline.
    repeat (apply elem_of_cons in Hline as [->|Hline];
            [vm_compute in Hparse; try discriminate; injection Hparse as <- <- <-; done|]).
    by apply elem_of_nil in Hline.
  - vm_compute. discriminate.
  - vm_compute. reflexivity.
Defined.

(** C9, as stated, fails: a line of [maxInt] executed statements and
    a line of one statement never executed leave the pair with
    [CoveredStatements = maxInt] and [TotalStatements = minInt]. *)
Lemma covered_exceeds_total :
  nonNegativeCounts [bigLine; oneMoreLine]
  ∧ aggregate [bigLine; oneMoreLine] !! "example.com/m"
      = Some {| TotalStatements := minInt; CoveredStatements := maxInt |}
  ∧ ¬ invariantAlways.
Proof.
  assert (nonNegativeCounts [bigLine; oneMoreLine]) as Hnn.
  { intros line filePath n c Hline Hparse.
    repeat (apply elem_of_cons in Hline as [->|Hline];
            [vm_compute in Hparse; injection Hparse as <- <- <-; done|]).
    by apply elem_of_nil in Hline. }
  split; [done|]. split; [vm_compute; reflexivity|].
  intros H.
  assert (coveredWithinTotal {| TotalStatements := minInt; CoveredStatements := maxInt |}) as [_ Hle].
  { apply (H [bigLine; oneMoreLine] "example.com/m"); [done|]. vm_compute. reflexivity. }
  vm_compute in Hle. by apply Hle.
Qed.

Lemma parseLine_malformed (line : string) : malformed line → parseLine line = None.
Proof.
  unfold parseLine. intros [Hmode|[Hlen|(f & a & b & Hfields & Hbad)]].
  - by rewrite Hmode.
  - destruct (Strings.HasPrefix line "mode:"); [done|].
    by destruct (Strings.Fields line) as [|? [|? [|? [|? ?]]]].
  - destruct (Strings.HasPrefix line "mode:"); [done|]. rewrite Hfields.
    destruct Hbad as [Hcolon|[Ha|Hb]].
    + by rewrite (LastIndex_absent _ _ Hcolon).
    + rewrite (Atoi_isDecimal _ Ha). by destruct (Strings.LastIndex f ":" =? -1).
    + rewrite (Atoi_isDecimal _ Hb).
      destruct (Strings.LastIndex f ":" =? -1); [done|]. by destruct (Strconv.Atoi a).
Qed.

Lemma reportRows_rows (m : gmap string CoverageStats) (names : list string) (a b : Z) :
  (reportRows m names a b).1 = rowOf m <$> names.
Proof.
  revert a b. induction names as [|pkg names IH]; intros a b; [done|].
  cbn [reportRows]. unfold bind, emit.
  specialize (IH (int_add a (TotalStatements (default {| TotalStatements := 0; CoveredStatements := 0 |} (m !! pkg))))
                 (int_add b (CoveredStatements (default {| TotalStatements := 0; CoveredStatements := 0 |} (m !! pkg))))).
  destruct (reportRows m names _ _) as [o r]. cbn [fst] in *. by rewrite fmap_cons, <- IH.
Qed.

Lemma report_result (m : gmap string CoverageStats) : (report m).2 = None.
Proof.
  unfold report. case_bool_decide; [done|].
  unfold bind, emit, ret.
  by destruct (reportRows m _ 0 0) as [o [ts tc]].
Qed.

Lemma tokens_short (raw : list string) :
  (∀ l, l ∈ raw → Z.of_nat (String.length l) < Bufio.MaxScanTokenSize) →
  Bufio.tokens raw = (Bufio.dropCR <$> raw, None).
Proof.
  induction raw as [|l raw IH]; intros Hshort; [done|].
  cbn [Bufio.tokens].
  assert (Z.of_nat (String.length l) < Bufio.MaxScanTokenSize) as Hl by (apply Hshort; left).
  apply Z.leb_gt in Hl. rewrite Hl, IH; [done|].
  intros l' Hl'. apply Hshort. by right.
Qed.

Lemma dropLastEmpty_elem (raw : list string) (l : string) :
  l ∈ Bufio.dropLastEmpty raw → l ∈ raw.
Proof.
  unfold Bufio.dropLastEmpty.
  destruct (reverse raw) as [|[|c s] r] eqn:Hrev; try done.
  intros Hl. apply elem_of_reverse. rewrite Hrev. right. by apply elem_of_reverse.
Qed.

(** C10, as amended.  A line that the scanner hands to the loop and
    that starts with the mode prefix, or has not exactly three fields,
    or no colon in the first field, or a second or third field that is
    no decimal integer, leaves the map as it is: the result is that of
    the profile without the line.  The function returns an error only
    when the file cannot be opened or the scanner ends with one; a
    profile read without an I/O error whose lines are all shorter than
    65536 bytes makes it return nil, whatever the lines hold. *)
Theorem malformed_line_skipped (line : string) :
  malformed line →
  (∀ m : gmap string CoverageStats, processLine m line = m)
  ∧ (∀ before after : list string,
       aggregate (before ++ line :: after) = aggregate (before ++ after))
  ∧ (∀ (w : World) (path content : string) (rerr serr : option error) (lines : list string),
       openFile w path = inl (content, rerr) →
       Bufio.ScanAll content rerr = (lines, serr) →
       (displayCoverageStats w path).2 = serr)
  ∧ (∀ (w : World) (path content : string),
       openFile w path = inl (content, None) →
       (∀ raw, raw ∈ Strings.Split content newline →
               Z.of_nat (String.length raw) < Bufio.MaxScanTokenSize) →
       (displayCoverageStats w path).2 = None).
Proof.
  intros Hbad.
  assert (∀ m : gmap string CoverageStats, processLine m line = m) as Hskip.
  { intros m. by rewrite processLine_parse, (parseLine_malformed _ Hbad). }
  assert (∀ (w : World) (path content : string) (rerr serr : option error) (lines : list string),
       openFile w path = inl (content, rerr) →
       Bufio.ScanAll content rerr = (lines, serr) →
       (displayCoverageStats w path).2 = serr) as Herr.
  { intros w path content rerr serr lines Hopen Hscan.
    rewrite (displayCoverageStats_scanned _ _ _ _ _ _ Hopen Hscan).
    destruct serr; [done|apply report_result]. }
  split; [done|]. split; [|split; [done|]].
  - intros before after. unfold aggregate. rewrite !foldl_app. cbn [foldl]. by rewrite Hskip.
  - intros w path content Hopen Hshort.
    destruct (Bufio.ScanAll content None) as [lines serr] eqn:Hscan.
    rewrite (Herr _ _ _ _ _ _ Hopen Hscan).
    unfold Bufio.ScanAll in Hscan. rewrite tokens_short in Hscan.
    + by injection Hscan as _ <-.
    + intros l Hl%dropLastEmpty_elem. by apply Hshort.
Qed.

Lemma malformed_line_skipped_witness :
  aggregate (["example.com/m/a.go:1.1,2.2 3 1"] ++ "example.com/m/a.go:1.1,2.2 x 1" :: []) =
  aggregate (["example.com/m/a.go:1.1,2.2 3 1"] ++ []).
Proof.
  refine (proj1 (proj2 (malformed_line_skipped "example.com/m/a.go:1.1,2.2 x 1" _)) _ _).
  right. right. eexists _, _, _. split; [vm_compute; reflexivity|].
  right. left. reflexivity.
Defined.

Lemma Repeat_x (n : nat) :
  Strings.Contains (Strings.Repeat "x" n) newline = false
  ∧ String.length (Strings.Repeat "x" n) = n.
Proof.
  induction n as [|n [IHc IHl]]; [done|].
  cbn [Strings.Repeat]. change ("x" +:+ ?r) with (String "x" r).
  cbn [Strings.Contains String.length]. rewrite IHc, IHl. done.
Qed.

(** A line of [5 + n] bytes that starts with the mode prefix. *)
Lemma long_mode_line (n : nat) :
  Bufio.MaxScanTokenSize ≤ 5 + Z.of_nat n →
  Strings.Split ("mode:" +:+ Strings.Repeat "x" n) newline = ["mode:" +:+ Strings.Repeat "x" n]
  ∧ Strings.HasPrefix ("mode:" +:+ Strings.Repeat "x" n) "mode:" = true
  ∧ Bufio.ScanAll ("mode:" +:+ Strings.Repeat "x" n) None = ([], Some ErrTooLong).
Proof.
  intros Hlong. destruct (Repeat_x n) as [Hc Hl].
  assert (Strings.Split ("mode:" +:+ Strings.Repeat "x" n) newline
          = ["mode:" +:+ Strings.Repeat "x" n]) as Hsplit.
  { apply (Split_absent _ (ascii_of_N 10)). fold newline.
    change ("mode:" +:+ ?r) with (String "m" (String "o" (String "d" (String "e" (String ":" r))))).
    cbn [Strings.Contains]. by rewrite Hc. }
  split; [done|]. split; [reflexivity|].
  unfold Bufio.ScanAll. rewrite Hsplit.
  change ("mode:" +:+ ?r) with (String "m" (String "o" (String "d" (String "e" (String ":" r))))).
  cbn [Bufio.dropLastEmpty reverse rev_append Bufio.tokens String.length].
  rewrite Hl.
  assert ((Bufio.MaxScanTokenSize <=? Z.of_nat (S (S (S (S (S n)))))) = true) as ->; [|done].
  apply Z.leb_le. lia.
Qed.

(** C10, as stated of the lines of the file, fails: one line of 65536
    bytes that starts with the mode prefix ends the scan with
    [ErrTooLong], which the function returns. *)
Lemma too_long_line_fails :
  Strings.HasPrefix tooLongLine "mode:" = true
  ∧ Z.of_nat (String.length tooLongLine) = 65536
  ∧ (displayCoverageStats (worldWithProfile tooLongLine) coverProfile).2 = Some ErrTooLong
  ∧ ¬ skippedLinesNeverFail.
Proof.
  destruct (long_mode_line (Z.to_nat (Bufio.MaxScanTokenSize - 5))) as (Hsplit & Hmode & Hscan).
  { rewrite Z2Nat.id; [lia|done]. }
  fold tooLongLine in Hsplit, Hmode, Hscan.
  assert (openFile (worldWithProfile tooLongLine) coverProfile = inl (tooLongLine, None)) as Hopen
    by (unfold worldWithProfile; reflexivity).
  split; [done|]. split; [|split].
  - unfold tooLongLine. rewrite length_append, (proj2 (Repeat_x _)).
    change (String.length "mode:") with 5%nat.
    rewrite Nat2Z.inj_add, Z2Nat.id; [|done]. reflexivity.
  - by rewrite (displayCoverageStats_scanned _ _ _ _ _ _ Hopen Hscan).
  - intros H. specialize (H _ _ _ Hopen).
    rewrite (displayCoverageStats_scanned _ _ _ _ _ _ Hopen Hscan) in H.
    discriminate H.
    intros line. rewrite Hsplit. intros ->%list_elem_of_singleton. by left.
Qed.

Lemma sumZ_Permutation (l1 l2 : list Z) : l1 ≡ₚ l2 → sumZ l1 = sumZ l2.
Proof. unfold sumZ. induction 1; simpl; lia. Qed.





(** ** The package key *)

Lemma parseLine_fields (line filePath : string) (n c : Z) :
  parseLine line = Some (filePath, n, c) →
  ∃ filePart stmts cnt,
    Strings.Fields line = [filePart; stmts; cnt]
    ∧ Strings.LastIndex filePart ":" ≠ -1
    ∧ filePath = Strings.sliceTo filePart (Z.to_nat (Strings.LastIndex filePart ":"))
    ∧ Strconv.Atoi stmts = Some n
    ∧ Strconv.Atoi cnt = Some c.
Proof.
  unfold parseLine. destruct (Strings.HasPrefix line "mode:"); [done|].
  destruct (Strings.Fields line) as [|f [|a [|b [|x parts]]]]; try done.
  destruct (Strings.LastIndex f ":" =? -1) eqn:Hidx; [done|].
  destruct (Strconv.Atoi a) as [n'|] eqn:Ha; [|done].
  destruct (Strconv.Atoi b) as [c'|] eqn:Hb; [|done].
  intros [= <- <- <-]. apply Z.eqb_neq in Hidx. by exists f, a, b.
Qed.

Lemma dom_bump (k : string) (n c : Z) (m : gmap string CoverageStats) :
  dom (bump k n c m) = {[k]} ∪ dom m.
Proof. unfold bump. by rewrite dom_insert_L. Qed.

(** C5.  The first field of a well-formed line is its file path, a
    colon, and a rest without colon.  The line changes the counter
    pair under the key [Dir] of the file path and no other, and [Dir]
    is the file path without its last element, cleaned: [.] when there
    is no separator, the root when the only separator comes first, and
    the leading elements themselves when they are plain names.  Two
    well-formed lines fill one counter pair exactly when the
    directories of their files are the same. *)
Theorem line_package_key (line filePath : string) (n c : Z) :
  parseLine line = Some (filePath, n, c) →
  (∃ rest stmts cnt,
     Strings.Fields line = [filePath +:+ ":" +:+ rest; stmts; cnt]
     ∧ Strings.Contains rest ":" = false)
  ∧ lineKey line = Some (Filepath.Dir filePath)
  ∧ (∀ m : gmap string CoverageStats,
       is_Some (processLine m line !! Filepath.Dir filePath)
       ∧ ∀ k, k ≠ Filepath.Dir filePath → processLine m line !! k = m !! k)
  ∧ (Strings.Contains filePath "/" = false → Filepath.Dir filePath = ".")
  ∧ (∀ base, filePath = "/" +:+ base → Strings.Contains base "/" = false →
             Filepath.Dir filePath = "/")
  ∧ (∀ d base, filePath = d +:+ "/" +:+ base → d ≠ "" → Strings.Contains base "/" = false →
               Filepath.Dir filePath = Filepath.Clean d)
  ∧ (∀ names base, filePath = Strings.Join names "/" +:+ "/" +:+ base →
                   names ≠ [] → Forall (λ name, validName name = true) names →
                   Strings.Contains base "/" = false →
                   Filepath.Dir filePath = Strings.Join names "/")
  ∧ (∀ line' filePath' n' c',
       parseLine line' = Some (filePath', n', c') →
       size (aggregate [line; line']) = 1%nat ↔ Filepath.Dir filePath = Filepath.Dir filePath').
Proof.
  intros Hparse. split; [|split; [|split; [|split; [|split; [|split; [|split]]]]]].
  - destruct (parseLine_fields _ _ _ _ Hparse) as (f & a & b & Hfields & Hidx & -> & _).
    unfold Strings.LastIndex in *.
    destruct (lastIndexFrom_spec f ":" 0 (Z.le_refl 0)) as [[Habs _]|[_ (rest & Heq & Hrest)]];
      [done|].
    exists rest, a, b. rewrite Z.sub_0_r in Heq.
    change (":" +:+ rest) with (String ":" rest). by rewrite <- Heq.
  - unfold lineKey. by rewrite Hparse.
  - intros m. rewrite processLine_parse, Hparse. split.
    + rewrite bump_lookup, decide_True by done. eauto.
    + intros k Hk. by rewrite bump_lookup, decide_False.
  - apply Dir_flat.
  - intros base -> Hbase. apply (Dir_split "" base Hbase).
  - intros d base -> Hd Hbase. rewrite (Dir_split d base Hbase).
    by apply Clean_trailing_slash.
  - intros names base -> Hne Hnames Hbase. rewrite (Dir_split _ base Hbase).
    rewrite Clean_trailing_slash; [by apply Clean_valid|].
    destruct (Join_valid_head names Hne Hnames) as (x & s & -> & _). done.
  - intros line' filePath' n' c' Hparse'.
    unfold aggregate. cbn [foldl]. rewrite !processLine_parse, Hparse, Hparse'.
    rewrite <- size_dom, !dom_bump, dom_empty_L, (right_id_L ∅ (∪)).
    split.
    + intros Hsize. destruct (decide (Filepath.Dir filePath = Filepath.Dir filePath')) as [|Hne];
        [done|].
      rewrite size_union, !size_singleton in Hsize by set_solver. done.
    + intros ->. by rewrite (idemp_L (∪)), size_singleton.
Qed.

Lemma line_package_key_witness :
  lineKey "example.com/m/pkg/a.go:5.1,9.2 4 0" = Some (Filepath.Dir "example.com/m/pkg/a.go")
  ∧ Filepath.Dir "example.com/m/pkg/a.go" = "example.com/m/pkg".
Proof.
  pose proof (line_package_key "example.com/m/pkg/a.go:5.1,9.2 4 0" "example.com/m/pkg/a.go" 4 0)
    as (_ & Hkey & _ & _ & _ & _ & Hdir & _).
  - vm_compute. reflexivity.
  - split; [exact Hkey|].
    apply (Hdir ["example.com"; "m"; "pkg"] "a.go"); [reflexivity|discriminate| |reflexivity].
    repeat constructor.
Defined.

(** ** The package discoverer *)

(** Induction on a tree, with the property at hand for the entries of
    a directory. *)
Lemma entry_tree_ind (P : Filepath.entry → Prop) :
  (∀ name, P (Filepath.File name)) →
  (∀ name rd kids, Forall P kids → P (Filepath.Dir_ name rd kids)) →
  (∀ name e, P (Filepath.Broken name e)) →
  ∀ t, P t.
Proof.
  intros Hfile Hdir Hbroken. fix IH 1.
  intros [name|name rd kids|name e]; [apply Hfile| |apply Hbroken].
  apply Hdir. induction kids as [|k kids IHkids]; constructor; [apply IH|apply IHkids].
Qed.

Lemma package_name (dir : string) :
  (if bool_decide (dir = ".") then "./." else "./" +:+ dir) = "./" +:+ dir.
Proof. by case_bool_decide as H; [rewrite H|]. Qed.

Lemma skippedDir_visit (shouldIgnore : list string → string → bool) (g : Globals)
    (names : list string) (name : string) :
  skippedDir shouldIgnore g names name
  = skippedName name || shouldIgnore (ignorePatterns g) (pathOf names).
Proof.
  unfold skippedDir, skippedName.
  by destruct (decide (name = ".")) as [->|Hne];
    [rewrite !(bool_decide_eq_false_2 ("." ≠ ".")) by (by intros H)
    |rewrite (bool_decide_eq_false_2 (name = ".")), (bool_decide_eq_true_2 (name ≠ ".")) by done].
Qed.

(** The closure on a file of a directory that is not ignored. *)
Lemma visit_file (shouldIgnore : list string → string → bool) (g : Globals)
    (names : list string) (name : string) (st : walkState) :
  Forall (λ n, validName n = true) names →
  validName name = true →
  shouldIgnore (ignorePatterns g) (pathOf names) = false →
  walkInv st →
  ∃ st',
    visit shouldIgnore g (pathOf (names ++ [name])) (Some (name, false)) None st = (st', None)
    ∧ walkInv st'
    ∧ ∀ p, p ∈ packages st' ↔
           p ∈ packages st ∨ (Strings.HasSuffix name ".go" = true ∧ p = "./" +:+ pathOf names).
Proof.
  intros Hnames Hname Hignore [Hnodup Hseen]. unfold visit.
  rewrite HasSuffix_pathOf, (Dir_pathOf _ _ Hnames Hname), Hignore, package_name.
  destruct (Strings.HasSuffix name ".go") eqn:Hgo.
  2: { exists st. split; [done|]. split; [done|]. intros p. split; [by left|].
       by intros [?|[? _]]. }
  destruct (default false (seen st !! pathOf names)) eqn:Hold; cbn [negb andb].
  - exists st. split; [done|]. split; [done|]. intros p. split; [by left|].
    intros [?|[_ ->]]; [done|]. by apply Hseen.
  - eexists. split; [done|]. unfold walkInv. cbn [packages seen]. split; [split|].
    + apply NoDup_app. split; [done|]. split; [|apply NoDup_singleton].
      intros p Hp ->%list_elem_of_singleton. apply Hseen in Hp. congruence.
    + intros d. rewrite elem_of_app, list_elem_of_singleton, <- Hseen.
      destruct (decide (d = pathOf names)) as [->|Hne].
      * rewrite lookup_insert_eq. split; [by right|done].
      * rewrite lookup_insert_ne by done. split; [by left|].
        intros [?|Heq]; [done|]. by apply (inj (String.append "./")) in Heq.
    + intros p. rewrite elem_of_app, list_elem_of_singleton. split.
      * intros [?|?]; [by left|by right].
      * intros [?|[_ ?]]; [by left|by right].
Qed.

Lemma contributes_dir (shouldIgnore : list string → string → bool) (g : Globals)
    (names : list string) (name : string) (kids : list Filepath.entry) (p : string) :
  contributes shouldIgnore g names (Filepath.Dir_ name None kids) p ↔
    skippedDir shouldIgnore g names name = false
    ∧ ((∃ file, Filepath.File file ∈ kids ∧ Strings.HasSuffix file ".go" = true
                ∧ p = "./" +:+ pathOf names)
       ∨ ∃ k, k ∈ kids ∧ contributes shouldIgnore g (names ++ [Filepath.Name k]) k p).
Proof.
  unfold contributes. split.
  - intros (names' & kids' & file & Hreach & Hfile & Hgo & ->).
    inversion Hreach as [? ? ? Hskip|? ? ? k ? ? Hskip Hk Hbelow]; subst.
    + split; [done|]. left. by exists file.
    + split; [done|]. right. exists k. split; [done|]. by exists names', kids', file.
  - intros [Hskip [(file & Hfile & Hgo & ->)|(k & Hk & names' & kids' & file & Hreach & Hfile & Hgo & ->)]].
    + exists names, kids, file. split; [by constructor|done].
    + exists names', kids', file. split; [|done]. by eapply reaches_below.
Qed.

Lemma contributes_file (shouldIgnore : list string → string → bool) (g : Globals)
    (names : list string) (name p : string) :
  ¬ contributes shouldIgnore g names (Filepath.File name) p.
Proof. intros (names' & kids' & file & Hreach & _). inversion Hreach. Qed.

Lemma contributes_broken (shouldIgnore : list string → string → bool) (g : Globals)
    (names : list string) (name p : string) (e : error) :
  ¬ contributes shouldIgnore g names (Filepath.Broken name e) p.
Proof. intros (names' & kids' & file & Hreach & _). inversion Hreach. Qed.

Lemma contributes_unreadable (shouldIgnore : list string → string → bool) (g : Globals)
    (names : list string) (name p : string) (e : error) (kids : list Filepath.entry) :
  ¬ contributes shouldIgnore g names (Filepath.Dir_ name (Some e) kids) p.
Proof. intros (names' & kids' & file & Hreach & _). inversion Hreach. Qed.

(** The loop over the entries [ks] of a directory that is entered:
    it ends without error, all entries walked, or with the error of
    an entry that could not be read. *)
Lemma walkNames_spec (shouldIgnore : list string → string → bool) (g : Globals)
    (names : list string) (ks : list Filepath.entry) :
  Forall (λ n, validName n = true) names →
  shouldIgnore (ignorePatterns g) (pathOf names) = false →
  Forall (walkSpec shouldIgnore g) ks →
  forallb (λ k, validName (Filepath.Name k) && namesValid k) ks = true →
  ∀ st, walkInv st →
    ∃ st' err,
      Filepath.walkNames (Filepath.walk (visit shouldIgnore g)) (pathOf names) ks st = (st', err)
      ∧ match err with
        | None =>
            walkInv st'
            ∧ (∀ p, p ∈ packages st' ↔
                    p ∈ packages st
                    ∨ (∃ file, Filepath.File file ∈ ks ∧ Strings.HasSuffix file ".go" = true
                               ∧ p = "./" +:+ pathOf names)
                    ∨ ∃ k, k ∈ ks ∧ contributes shouldIgnore g (names ++ [Filepath.Name k]) k p)
            ∧ (forallb noSentinel ks = true →
               forallb (λ k, readable shouldIgnore g (names ++ [Filepath.Name k]) k) ks = true)
        | Some e =>
            isSkipDir e = false
            ∧ forallb (λ k, readable shouldIgnore g (names ++ [Filepath.Name k]) k) ks = false
        end.
Proof.
  intros Hnames Hignore. induction ks as [|k ks IH]; intros Hspec Hvalid st Hinv.
  { exists st, None. split; [done|]. split; [done|]. split; [|done].
    intros p. split; [by left|].
    intros [?|[(file & Hin & _)|(k & Hin & _)]]; [done|by apply elem_of_nil in Hin..]. }
  apply Forall_cons in Hspec as [Hk Hspec].
  cbn [forallb] in Hvalid.
  apply andb_true_iff in Hvalid as [Hvk Hvalid].
  apply andb_true_iff in Hvk as [Hname Hvk].
  cbn [Filepath.walkNames]. rewrite (Join_pathOf _ _ Hnames Hname).
  set (after := λ st1 : walkState,
    walkInv st1
    ∧ (∀ p, p ∈ packages st1 ↔
            p ∈ packages st
            ∨ (∃ file, k = Filepath.File file ∧ Strings.HasSuffix file ".go" = true
                       ∧ p = "./" +:+ pathOf names)
            ∨ contributes shouldIgnore g (names ++ [Filepath.Name k]) k p)
    ∧ (noSentinel k = true → readable shouldIgnore g (names ++ [Filepath.Name k]) k = true)).
  assert (∃ st1 err,
    Filepath.walk (visit shouldIgnore g) (pathOf (names ++ [Filepath.Name k])) k st = (st1, err)
    ∧ match err with
      | None => after st1
      | Some e =>
          if isSkipDir e then (∀ file, k ≠ Filepath.File file) ∧ after st1
          else readable shouldIgnore g (names ++ [Filepath.Name k]) k = false
      end)
    as (st1 & err & Hwalk & Hafter).
  { destruct k as [name|name rd kids|name e].
    - destruct (visit_file shouldIgnore g names name st Hnames Hname Hignore Hinv)
        as (st1 & Hvisit & Hinv1 & Hpk1).
      exists st1, None. split; [done|]. split; [done|]. split; [|done].
      intros p. rewrite Hpk1. split.
      + intros [?|[? ->]]; [by left|]. right. left. by exists name.
      + intros [?|[(file & [= <-] & ? & ->)|Hc]]; [by left|by right|].
        by apply contributes_file in Hc.
    - destruct (Hk (names ++ [name]) st) as (st1 & err & Hwalk & Hwalked); [done..| |done|].
      { apply Forall_app. split; [done|]. by apply Forall_singleton. }
      exists st1, err. split; [done|].
      assert (walked shouldIgnore g (names ++ [name]) (Filepath.Dir_ name rd kids) st st1
              → after st1) as Hstep.
      { intros (Hinv1 & Hpk1 & Hread1). split; [done|]. split; [|done].
        intros p. rewrite Hpk1. split.
        - intros [?|?]; [by left|by right; right].
        - intros [?|[(file & ? & _)|?]]; [by left|done|by right]. }
      destruct err as [e|]; [|by apply Hstep].
      destruct (isSkipDir e); [|done]. split; [done|]. by apply Hstep.
    - exists st, (Some e). split; [done|].
      destruct (isSkipDir e) eqn:He; [|done]. split; [done|].
      split; [done|]. split.
      + intros p. split; [by left|].
        intros [?|[(file & ? & _)|Hc]]; [done|done|]. by apply contributes_broken in Hc.
      + cbn [noSentinel]. by rewrite He. }
  rewrite Hwalk.
  assert (after st1 →
    ∃ st' err',
      Filepath.walkNames (Filepath.walk (visit shouldIgnore g)) (pathOf names) ks st1 = (st', err')
      ∧ match err' with
        | None =>
            walkInv st'
            ∧ (∀ p, p ∈ packages st' ↔
                    p ∈ packages st
                    ∨ (∃ file, Filepath.File file ∈ k :: ks ∧ Strings.HasSuffix file ".go" = true
                               ∧ p = "./" +:+ pathOf names)
                    ∨ ∃ k', k' ∈ k :: ks
                            ∧ contributes shouldIgnore g (names ++ [Filepath.Name k']) k' p)
            ∧ (forallb noSentinel (k :: ks) = true →
               forallb (λ k', readable shouldIgnore g (names ++ [Filepath.Name k']) k')
                       (k :: ks) = true)
        | Some e =>
            isSkipDir e = false
            ∧ forallb (λ k', readable shouldIgnore g (names ++ [Filepath.Name k']) k')
                      (k :: ks) = false
        end) as Hgo.
  { intros (Hinv1 & Hpk1 & Hread1).
    destruct (IH Hspec Hvalid st1 Hinv1) as (st2 & err2 & Hrest & Hafter2).
    exists st2, err2. split; [done|]. destruct err2 as [e2|].
    { destruct Hafter2 as [He2 Hread2]. split; [done|]. cbn [forallb].
      rewrite Hread2. apply andb_false_r. }
    destruct Hafter2 as (Hinv2 & Hpk2 & Hread2). split; [done|]. split.
    - intros p. rewrite Hpk2, Hpk1. split.
      + intros [[?|[(file & -> & Hgo & ->)|Hc]]|[(file & Hin & Hgo & ->)|(k' & Hin & Hc)]].
        * by left.
        * right. left. exists file. split; [by left|done].
        * right. right. exists k. split; [by left|done].
        * right. left. exists file. split; [by right|done].
        * right. right. exists k'. split; [by right|done].
      + intros [?|[(file & Hin & Hgo & ->)|(k' & Hin & Hc)]].
        * by left; left.
        * apply elem_of_cons in Hin as [<-|Hin].
          -- left. right. left. by exists file.
          -- right. left. by exists file.
        * apply elem_of_cons in Hin as [->|Hin].
          -- left. by right; right.
          -- right. right. by exists k'.
    - cbn [forallb]. intros [Hk1 Hks]%andb_true_iff.
      by rewrite (Hread1 Hk1), (Hread2 Hks). }
  destruct err as [e|]; [|exact (Hgo Hafter)].
  destruct (isSkipDir e) eqn:He.
  - destruct Hafter as [Hnofile Hafter].
    destruct k as [name|name rd kids|name e']; [by destruct (Hnofile name)| |];
      cbn [Filepath.IsDir andb]; rewrite ?He; exact (Hgo Hafter).
  - exists st1, (Some e). split.
    + destruct k; cbn [Filepath.IsDir andb]; by rewrite ?He, ?andb_false_r.
    + split; [done|]. cbn [forallb]. by rewrite Hafter.
Qed.

Lemma walk_spec (shouldIgnore : list string → string → bool) (g : Globals) (t : Filepath.entry) :
  walkSpec shouldIgnore g t.
Proof.
  induction t as [name|name rd kids IH|name e] using entry_tree_ind;
    intros names st Hdir Hvalid Hnames Hinv; [done| |done].
  cbn [namesValid] in Hvalid.
  cbn [Filepath.walk]. unfold visit at 1.
  destruct rd as [e|].
  { exists st, (Some e). split; [done|].
    destruct (isSkipDir e) eqn:He; [|done].
    split; [done|]. split.
    - intros p. split; [by left|]. intros [?|Hc]; [done|].
      by apply contributes_unreadable in Hc.
    - cbn [noSentinel]. by rewrite He. }
  pose proof (skippedDir_visit shouldIgnore g names name) as Hskip.
  destruct (skippedName name) eqn:Hsn.
  { exists st, (Some SkipDir). split; [done|]. cbn [isSkipDir].
    split; [done|]. split.
    - intros p. rewrite contributes_dir, Hskip. split; [by left|]. by intros [?|[? _]].
    - intros _. cbn [readable]. by rewrite Hskip. }
  destruct (shouldIgnore (ignorePatterns g) (pathOf names)) eqn:Hignore.
  { exists st, (Some SkipDir). split; [done|]. cbn [isSkipDir].
    split; [done|]. split.
    - intros p. rewrite contributes_dir, Hskip. split; [by left|]. by intros [?|[? _]].
    - intros _. cbn [readable]. by rewrite Hskip. }
  destruct (walkNames_spec shouldIgnore g names kids Hnames Hignore IH Hvalid st Hinv)
    as (st' & err & Hwalk & Hafter).
  exists st', err. split; [done|]. cbn [orb] in Hskip.
  destruct err as [e|].
  - destruct Hafter as [-> Hread]. cbn [readable]. by rewrite Hskip, Hread.
  - destruct Hafter as (Hinv' & Hpk & Hread). split; [done|]. split.
    + intros p. rewrite Hpk, contributes_dir, Hskip. split.
      * intros [?|?]; [by left|by right].
      * intros [?|[_ ?]]; [by left|by right].
    + cbn [noSentinel readable]. intros Hsent. rewrite (Hread Hsent). apply orb_true_r.
Qed.

(** Entries that cannot be read matter where the walk looks: in a
    skipped directory they are never seen, anywhere else they end the
    walk, and so does a skipped directory that cannot be listed. *)
Example findGoPackages_examples :
  findGoPackages noIgnore initialGlobals "." sampleTree = (["./."; "./pkg"], None)
  ∧ findGoPackages noIgnore initialGlobals "." unreadableFixtures = (["./."; "./pkg"], None)
  ∧ findGoPackages noIgnore initialGlobals "."
      (Filepath.Dir_ "." None
         [Filepath.File "main.go";
          Filepath.Dir_ "pkg" None [Filepath.Broken "a.go" (ErrSys "input/output error")]])
    = ([], Some (ErrSys "input/output error"))
  ∧ findGoPackages noIgnore initialGlobals "."
      (Filepath.Dir_ "." None
         [Filepath.File "main.go";
          Filepath.Dir_ "vendor" (Some (ErrSys "permission denied")) []])
    = ([], Some (ErrSys "permission denied")).
Proof. repeat split. Qed.

(** C3, as amended.  On a tree that lists valid names,
    [findGoPackages] on the root [.] either returns an error and no
    package, or returns, without a repetition, the packages [./d] of
    exactly the directories [d] that list a file whose name ends in
    [.go] and that neither are nor lie in a skipped directory: one
    whose name starts with a dot (other than [.]), or is [vendor] or
    [testdata], or whose path the ignore patterns match.  It returns
    the packages when the walk meets nothing that cannot be read, and
    the error when it meets something that cannot; what lies in a
    skipped directory is not met. *)
Theorem findGoPackages_spec (shouldIgnore : list string → string → bool) (g : Globals)
    (t : Filepath.entry) :
  Filepath.IsDir t = true →
  namesValid t = true →
  match findGoPackages shouldIgnore g "." t with
  | (pkgs, None) =>
      NoDup pkgs
      ∧ ∀ p, p ∈ pkgs ↔
             ∃ names kids file,
               reaches shouldIgnore g [] t names kids
               ∧ Filepath.File file ∈ kids
               ∧ Strings.HasSuffix file ".go" = true
               ∧ p = "./" +:+ pathOf names
  | (pkgs, Some e) => pkgs = []
  end
  ∧ (readable shouldIgnore g [] t = true →
     (findGoPackages shouldIgnore g "." t).2 = None)
  ∧ (noSentinel t = true → readable shouldIgnore g [] t = false →
     (findGoPackages shouldIgnore g "." t).2 ≠ None).
Proof.
  intros Hdir Hvalid.
  destruct (walk_spec shouldIgnore g t [] {| packages := []; seen := ∅ |})
    as (st' & err & Hwalk & Hafter); [done..| |].
  { split; [constructor|]. intros d. cbn [packages seen]. rewrite lookup_empty. split; [done|].
    by intros ?%elem_of_nil. }
  unfold findGoPackages, Filepath.Walk.
  change (pathOf []) with "." in Hwalk. rewrite Hwalk.
  assert (walked shouldIgnore g [] t {| packages := []; seen := ∅ |} st' →
    (NoDup (packages st')
     ∧ ∀ p, p ∈ packages st' ↔
            ∃ names kids file,
              reaches shouldIgnore g [] t names kids
              ∧ Filepath.File file ∈ kids
              ∧ Strings.HasSuffix file ".go" = true
              ∧ p = "./" +:+ pathOf names)
    ∧ (noSentinel t = true → readable shouldIgnore g [] t = false → None ≠ (None : option error)))
    as Hok.
  { intros ([Hnodup _] & Hpk & Hread). split; [split; [done|]|].
    - intros p. rewrite Hpk. cbn [packages]. unfold contributes. split.
      + by intros [?%elem_of_nil|?].
      + by right.
    - intros Hsent Hno. rewrite (Hread Hsent) in Hno. done. }
  destruct err as [e|].
  - destruct (isSkipDir e).
    + destruct (Hok Hafter) as [Hpkgs Hfail]. cbn [snd]. done.
    + cbn [snd]. split; [done|]. split; [by rewrite Hafter|done].
  - destruct (Hok Hafter) as [Hpkgs Hfail]. cbn [snd]. done.
Qed.

Lemma findGoPackages_spec_witness :
  (NoDup ["./."; "./pkg"]
   ∧ ∀ p, p ∈ ["./."; "./pkg"] ↔
          ∃ names kids file,
            reaches noIgnore initialGlobals [] unreadableFixtures names kids
            ∧ Filepath.File file ∈ kids
            ∧ Strings.HasSuffix file ".go" = true
            ∧ p = "./" +:+ pathOf names)
  ∧ (readable noIgnore initialGlobals [] unreadableFixtures = true →
     (findGoPackages noIgnore initialGlobals "." unreadableFixtures).2 = None)
  ∧ (noSentinel unreadableFixtures = true →
     readable noIgnore initialGlobals [] unreadableFixtures = false →
     (findGoPackages noIgnore initialGlobals "." unreadableFixtures).2 ≠ None).
Proof.
  exact (findGoPackages_spec noIgnore initialGlobals unreadableFixtures eq_refl eq_refl).
Defined.

(** C3, as stated, fails: the walk looks at a skipped directory before
    it skips it, so a repository whose [.git] cannot be listed yields
    the error and no package, although its root lists a Go file. *)
Lemma unreadable_directory_fails :
  findGoPackages noIgnore initialGlobals "." unreadableGit
  = ([], Some (ErrSys "permission denied"))
  ∧ contributes noIgnore initialGlobals [] unreadableGit "./."
  ∧ ¬ packagesOfEveryTree noIgnore.
Proof.
  split; [reflexivity|]. split.
  - exists [], [Filepath.Dir_ ".git" (Some (ErrSys "permission denied")) [];
                 Filepath.File "main.go"], "main.go".
    split; [by constructor|]. split; [by right; left|]. done.
  - intros H. destruct (H initialGlobals unreadableGit) as (pkgs & Hfind & _); [done..|].
    discriminate Hfind.
Qed.

(** ** More on [parseFlags] *)

Lemma afterTokens_nil (g : Globals) : afterTokens g [] = g.
Proof. destruct g. unfold afterTokens. simpl. by rewrite orb_false_r, app_nil_r. Qed.

Lemma tokenize_pass (args : list string) :
  Forall (λ arg, isOption arg = false) args → tokenize args = TPass <$> args.
Proof.
  induction 1 as [|arg args Harg _ IH]; [done|].
  unfold isOption in Harg. apply orb_false_iff in Harg as [Harg He].
  apply orb_false_iff in Harg as [Hd Hi].
  cbn [tokenize]. by rewrite Hd, Hi, He, IH.
Qed.

Lemma tokenPass_TPass (args : list string) : concat (tokenPass <$> (TPass <$> args)) = args.
Proof.
  induction args as [|arg args IH]; [done|].
  rewrite !fmap_cons. cbn [concat tokenPass app]. by rewrite IH.
Qed.

Lemma afterTokens_TPass (g : Globals) (args : list string) : afterTokens g (TPass <$> args) = g.
Proof.
  destruct g as [v ps]. unfold afterTokens. cbn [verbose ignorePatterns].
  assert (existsb tokenDetail (TPass <$> args) = false) as ->
    by (induction args; [done|]; done).
  assert (concat (tokenPatterns <$> (TPass <$> args)) = []) as ->
    by (induction args; [done|]; done).
  by rewrite orb_false_r, app_nil_r.
Qed.

Lemma tokenize_passes (args : list string) :
  Forall (λ arg, isOption arg = false) (concat (tokenPass <$> tokenize args))
  ∧ concat (tokenPass <$> tokenize args) `sublist_of` args.
Proof.
  induction args as [|arg rest [IH1 IH2] IHtail] using tokenize_ind; [by split|].
  cbn [tokenize].
  destruct (isDetail arg) eqn:Hd.
  { cbn [fmap list_fmap concat tokenPass app]. split; [done|]. by apply sublist_cons. }
  destruct (isIgnore arg) eqn:Hi.
  { destruct rest as [|value rest'].
    - split; [constructor|]. simpl. apply sublist_nil_l.
    - destruct (IHtail value rest' eq_refl) as [IH1' IH2'].
      cbn [fmap list_fmap concat tokenPass app]. split; [done|].
      by apply sublist_cons, sublist_cons. }
  destruct (isIgnoreEq arg) eqn:He.
  { cbn [fmap list_fmap concat tokenPass app]. split; [done|]. by apply sublist_cons. }
  cbn [fmap list_fmap concat tokenPass app]. split.
  - constructor; [|done]. unfold isOption. by rewrite Hd, Hi, He.
  - by apply sublist_skip.
Qed.

(** X1.  What [parseFlags] returns holds no option of the tool: the
    returned arguments are arguments of the command line, in their
    order, none of them an option in any spelling, so that parsing them
    again changes nothing; and a command line without options of the
    tool is returned as it is, the globals untouched. *)
Theorem parseFlags_returns_no_option (g : Globals) (args : list string) :
  Forall (λ arg, isOption arg = false) (parseFlags g args).2
  ∧ (parseFlags g args).2 `sublist_of` args
  ∧ (∀ g', parseFlags g' (parseFlags g args).2 = (g', (parseFlags g args).2))
  ∧ (Forall (λ arg, isOption arg = false) args → parseFlags g args = (g, args)).
Proof.
  assert (∀ g' l, Forall (λ arg, isOption arg = false) l → parseFlags g' l = (g', l)) as Hid.
  { intros g' l Hl. rewrite parseFlags_afterTokens, (tokenize_pass _ Hl).
    by rewrite afterTokens_TPass, tokenPass_TPass. }
  destruct (tokenize_passes args) as [Hno Hsub].
  assert ((parseFlags g args).2 = concat (tokenPass <$> tokenize args)) as ->
    by (by rewrite parseFlags_afterTokens).
  split; [done|]. split; [done|]. split; [|apply Hid].
  intros g'. by apply Hid.
Qed.

Lemma tokenize_nonempty (arg : string) (rest : list string) : tokenize (arg :: rest) ≠ [].
Proof.
  cbn [tokenize]. destruct (isDetail arg); [done|].
  destruct (isIgnore arg); [by destruct rest|]. by destruct (isIgnoreEq arg).
Qed.

Lemma last_cons_ne {A : Type} (x : A) (l : list A) :
  l ≠ [] → last (x :: l) = last l.
Proof. by destruct l. Qed.

(** [tokenize] goes through an append, unless the first part ends
    with an ignore flag that still waits for its value. *)
Lemma tokenize_app (a b : list string) :
  last (tokenize a) ≠ Some TIgnoreNoValue →
  tokenize (a ++ b) = tokenize a ++ tokenize b.
Proof.
  induction a as [|arg rest IH IHtail] using tokenize_ind; [done|].
  assert (∀ t l, last (t :: tokenize l) ≠ Some TIgnoreNoValue →
                 last (tokenize l) ≠ Some TIgnoreNoValue) as Hlast.
  { intros t [|x l] Hl; [done|]. by rewrite last_cons_ne in Hl by apply tokenize_nonempty. }
  cbn [tokenize app]. intros Hl.
  destruct (isDetail arg); [by rewrite IH by (by eapply Hlast)|].
  destruct (isIgnore arg).
  { destruct rest as [|value rest']; [done|]. cbn [app].
    by rewrite (IHtail value rest' eq_refl) by (by eapply Hlast). }
  destruct (isIgnoreEq arg); by rewrite IH by (by eapply Hlast).
Qed.

Lemma afterTokens_app (g : Globals) (ts1 ts2 : list token) :
  afterTokens g (ts1 ++ ts2) = afterTokens (afterTokens g ts1) ts2.
Proof.
  unfold afterTokens. cbn [verbose ignorePatterns].
  by rewrite existsb_app, fmap_app, concat_app, orb_assoc, app_assoc.
Qed.

Lemma patternsOf_comma (x y : string) :
  patternsOf (x +:+ "," +:+ y) = patternsOf x ++ patternsOf y.
Proof.
  unfold patternsOf. change (x +:+ "," +:+ y) with (x +:+ String "," y).
  by rewrite (Split_append x y ","), fmap_app, filter_app.
Qed.

(** X2.  Command lines compose: parsing two lists in a row, the second
    from the globals the first has left, is parsing their append,
    unless the first list ends with an ignore flag that has no value
    yet.  Likewise a comma composes pattern values: one flag with the
    value [x,y] stores what two flags with the values [x] and [y]
    store. *)
Theorem parseFlags_app (g : Globals) (a b : list string) (x y : string) :
  last (tokenize a) ≠ Some TIgnoreNoValue →
  parseFlags g (a ++ b) =
    ((parseFlags (parseFlags g a).1 b).1, (parseFlags g a).2 ++ (parseFlags (parseFlags g a).1 b).2)
  ∧ parseFlags g ["-i"; x +:+ "," +:+ y] = parseFlags g ["-i"; x; "-i"; y].
Proof.
  intros Hlast. split.
  - rewrite !parseFlags_afterTokens. cbn [fst snd].
    by rewrite (tokenize_app _ _ Hlast), afterTokens_app, fmap_app, concat_app.
  - rewrite !parseFlags_afterTokens.
    change (tokenize ["-i"; x +:+ "," +:+ y]) with [TIgnore (x +:+ "," +:+ y)].
    change (tokenize ["-i"; x; "-i"; y]) with [TIgnore x; TIgnore y].
    unfold afterTokens. cbn [fmap list_fmap concat tokenPatterns tokenPass existsb tokenDetail app].
    by rewrite patternsOf_comma, !app_nil_r.
Qed.

Lemma parseFlags_app_witness :
  parseFlags initialGlobals (["-d"; "-i"; "pb"] ++ ["-run"; "TestA"]) =
    ((parseFlags (parseFlags initialGlobals ["-d"; "-i"; "pb"]).1 ["-run"; "TestA"]).1,
     (parseFlags initialGlobals ["-d"; "-i"; "pb"]).2
     ++ (parseFlags (parseFlags initialGlobals ["-d"; "-i"; "pb"]).1 ["-run"; "TestA"]).2)
  ∧ parseFlags initialGlobals ["-i"; "example" +:+ "," +:+ " pb"]
    = parseFlags initialGlobals ["-i"; "example"; "-i"; " pb"].
Proof.
  apply (parseFlags_app initialGlobals ["-d"; "-i"; "pb"] ["-run"; "TestA"] "example" " pb").
  vm_compute. discriminate.
Defined.

(** X3.  The globals only grow: [parseFlags] never resets the
    verbosity switch, it keeps the patterns it finds and appends the
    new ones, and no pattern it appends is empty. *)
Theorem parseFlags_globals_grow (g : Globals) (args : list string) :
  (verbose g = false ∨ verbose (parseFlags g args).1 = true)
  ∧ ∃ added,
      ignorePatterns (parseFlags g args).1 = ignorePatterns g ++ added
      ∧ Forall (λ p, p ≠ "") added.
Proof.
  rewrite parseFlags_afterTokens. cbn [fst afterTokens verbose ignorePatterns]. split.
  - destruct (verbose g); [by right|by left].
  - eexists. split; [done|].
    apply Forall_concat, Forall_fmap, Forall_forall.
    intros [|value| |arg] _; cbn [tokenPatterns compose]; [constructor| |constructor..].
    unfold patternsOf. apply Forall_forall.
    by intros p [Hp _]%list_elem_of_filter.
Qed.

(** ** More on [run] and [main] *)

Lemma isHelp_not_option (arg : string) : isHelp arg = true → isOption arg = false.
Proof.
  unfold isHelp. rewrite !orb_true_iff, !bool_decide_eq_true.
  by intros [[-> | ->] | ->].
Qed.

Lemma tokenize_no_ignore (args : list string) :
  existsb isIgnore args = false →
  concat (tokenPass <$> tokenize args) = filter (λ arg, isOption arg = false) args.
Proof.
  induction args as [|arg args IH]; [done|]. cbn [existsb tokenize].
  intros [Hi Hrest]%orb_false_iff. rewrite Hi.
  destruct (isDetail arg) eqn:Hd.
  { rewrite filter_cons_False by (unfold isOption; by rewrite Hd).
    rewrite fmap_cons. cbn [concat tokenPass app]. by apply IH. }
  destruct (isIgnoreEq arg) eqn:He.
  { rewrite filter_cons_False by (unfold isOption; by rewrite Hd, Hi, He).
    rewrite fmap_cons. cbn [concat tokenPass app]. by apply IH. }
  rewrite filter_cons_True by (unfold isOption; by rewrite Hd, Hi, He).
  rewrite fmap_cons. cbn [concat tokenPass app]. by rewrite IH.
Qed.

(** X4.  A help flag among the arguments that [parseFlags] returns
    makes [main] print the usage text and nothing else: no package is
    looked for, no process is started, the exit status is 0.  This is
    so for a help flag anywhere on a command line that has no ignore
    flag in the two-argument form (which could take the help flag as
    its value). *)
Theorem help_prints_usage (shouldIgnore : list string → string → bool) (w : World)
    (osArgs : list string) :
  existsb isHelp (parseFlags initialGlobals osArgs).2 = true
  ∨ (existsb isHelp osArgs = true ∧ existsb isIgnore osArgs = false) →
  main shouldIgnore w osArgs = ([Println usage], 0).
Proof.
  intros H.
  assert (existsb isHelp (parseFlags initialGlobals osArgs).2 = true) as Hhelp.
  { destruct H as [H|[Hh Hi]]; [done|].
    rewrite parseFlags_afterTokens. cbn [snd]. rewrite (tokenize_no_ignore _ Hi).
    apply existsb_exists in Hh as (h & Hin & Hh). apply existsb_exists. exists h. split; [|done].
    apply list_elem_of_In, list_elem_of_filter. split; [by apply isHelp_not_option|].
    by apply list_elem_of_In. }
  unfold main. fold initialGlobals.
  destruct (parseFlags initialGlobals osArgs) as [g args]. cbn [snd] in Hhelp.
  by rewrite Hhelp.
Qed.

Lemma help_prints_usage_witness :
  main noIgnore (sampleWorld None) ["-d"; "-v"; "--help"] = ([Println usage], 0).
Proof.
  apply (help_prints_usage noIgnore (sampleWorld None) ["-d"; "-v"; "--help"]).
  right. split; reflexivity.
Defined.














(** ** More on [displayCoverageStats] *)

Lemma aggregate_empty (lines : list string) :
  aggregate lines = ∅ ↔ Forall (λ line, parseLine line = None) lines.
Proof.
  split.
  - intros Hempty. apply Forall_forall. intros line Hline.
    destruct (parseLine line) as [[[filePath n] c]|] eqn:Hparse; [|done]. exfalso.
    pose proof (aggregate_lookup lines (Filepath.Dir filePath)) as Hlookup.
    rewrite Hempty, lookup_empty in Hlookup.
    case_bool_decide as Hattr; [|done].
    assert ((n, c) ∈ attributed (Filepath.Dir filePath) lines) as Hin.
    { unfold attributed. apply list_elem_of_omap. exists line. split; [done|].
      rewrite Hparse. by rewrite bool_decide_eq_true_2. }
    rewrite Hattr in Hin. by apply elem_of_nil in Hin.
  - intros Hall. apply map_eq. intros k. rewrite aggregate_lookup, lookup_empty.
    rewrite bool_decide_eq_true_2; [done|].
    unfold attributed. induction Hall as [|line lines Hline _ IH]; [done|].
    cbn [omap list_omap]. by rewrite Hline.
Qed.

(** X8.  A profile that is read without error holds no well-formed
    line (it is empty, or holds the mode line and lines to skip only)
    exactly when the function prints the one line that no coverage data
    was found, and returns nil. *)
Theorem no_coverage_data (w : World) (path content : string) (rerr : option error)
    (lines : list string) :
  openFile w path = inl (content, rerr) →
  Bufio.ScanAll content rerr = (lines, None) →
  displayCoverageStats w path = ([Println "No coverage data found"], None)
  ↔ Forall (λ line, parseLine line = None) lines.
Proof.
  intros Hopen Hscan. rewrite (displayCoverageStats_scanned _ _ _ _ _ _ Hopen Hscan).
  rewrite <- aggregate_empty. unfold report. split.
  - case_bool_decide as Hsize; [intros _; by apply map_size_empty_inv|].
    unfold bind, emit, ret.
    destruct (reportRows _ _ 0 0) as [rows [ts tc]]. cbn [app]. discriminate.
  - intros ->. by rewrite bool_decide_eq_true_2 by apply map_size_empty.
Qed.

Lemma no_coverage_data_witness :
  displayCoverageStats (worldWithProfile ("mode: atomic" +:+ newline +:+ "ok" +:+ newline))
                       coverProfile
  = ([Println "No coverage data found"], None).
Proof.
  apply (no_coverage_data _ coverProfile ("mode: atomic" +:+ newline +:+ "ok" +:+ newline) None
           ["mode: atomic"; "ok"]); [reflexivity..|].
  repeat constructor.
Defined.

(** X9.  When the function returns an error it has printed nothing,
    not even the rows of the lines read before the error.  The error is
    that of opening the file, or that of the read that ended the scan,
    or [ErrTooLong], unwrapped. *)
Theorem failure_prints_nothing (w : World) (path : string) (e : error) :
  (displayCoverageStats w path).2 = Some e →
  (displayCoverageStats w path).1 = []
  ∧ (openFile w path = inr e
     ∨ ∃ content rerr,
         openFile w path = inl (content, rerr)
         ∧ (Bufio.ScanAll content rerr).2 = Some e
         ∧ (e = ErrTooLong ∨ rerr = Some e)).
Proof.
  unfold displayCoverageStats.
  destruct (openFile w path) as [[content rerr]|e'] eqn:Hopen.
  - destruct (Bufio.ScanAll content rerr) as [lines serr] eqn:Hscan.
    destruct serr as [e'|]; [|by rewrite report_result].
    intros [= ->]. split; [done|]. right. exists content, rerr. split; [done|].
    split; [by rewrite Hscan|].
    unfold Bufio.ScanAll in Hscan.
    destruct (Bufio.tokens _) as [ls [e'|]] eqn:Htokens.
    + left. injection Hscan as _ <-. clear -Htokens.
      revert ls Htokens.
      induction (Bufio.dropLastEmpty (Strings.Split content newline)) as [|l raw IH];
        intros ls Htokens; [done|].
      cbn [Bufio.tokens] in Htokens.
      destruct (Bufio.MaxScanTokenSize <=? Z.of_nat (String.length l)); [by injection Htokens|].
      destruct (Bufio.tokens raw) as [ls' e'']. injection Htokens as _ ->. by eapply IH.
    + right. by injection Hscan as _ <-.
  - intros [= ->]. split; [done|]. by left.
Qed.

Lemma failure_prints_nothing_witness :
  (displayCoverageStats (worldWithoutProfile (ErrSys "permission denied")) coverProfile).1 = [].
Proof.
  refine (proj1 (failure_prints_nothing (worldWithoutProfile (ErrSys "permission denied"))
                   coverProfile (ErrSys "permission denied") _)).
  reflexivity.
Defined.

(** ** The grand totals of the summary *)

Lemma reportRows_totals (m : gmap string CoverageStats) (names : list string) (a b : Z) :
  (reportRows m names (wrap a) (wrap b)).2 =
    (wrap (a + sumZ ((λ k, TotalStatements (default {| TotalStatements := 0; CoveredStatements := 0 |} (m !! k))) <$> names)),
     wrap (b + sumZ ((λ k, CoveredStatements (default {| TotalStatements := 0; CoveredStatements := 0 |} (m !! k))) <$> names))).
Proof.
  revert a b. induction names as [|pkg names IH]; intros a b.
  - cbn. by rewrite !Z.add_0_r.
  - cbn [reportRows]. unfold bind, emit. rewrite !int_add_wrap.
    specialize (IH (a + TotalStatements (default {| TotalStatements := 0; CoveredStatements := 0 |} (m !! pkg)))
                   (b + CoveredStatements (default {| TotalStatements := 0; CoveredStatements := 0 |} (m !! pkg)))).
    destruct (reportRows m names _ _) as [o r]. cbn [snd] in *. rewrite IH.
    rewrite !fmap_cons. unfold sumZ. cbn [foldr]. f_equal; f_equal; lia.
Qed.

Lemma sum_insert (f : CoverageStats → Z) (k : string) (x : CoverageStats)
    (m : gmap string CoverageStats) :
  sumZ ((λ p, f p.2) <$> map_to_list (<[k := x]> m))
  = f x + sumZ ((λ p, f p.2) <$> map_to_list (delete k m)).
Proof.
  rewrite <- insert_delete_eq.
  rewrite (sumZ_Permutation _ ((λ p, f p.2) <$> (k, x) :: map_to_list (delete k m))).
  - done.
  - apply fmap_Permutation, map_to_list_insert, lookup_delete_eq.
Qed.

Lemma sum_delete (f : CoverageStats → Z) (k : string) (m : gmap string CoverageStats) :
  sumZ ((λ p, f p.2) <$> map_to_list m)
  = from_option f 0 (m !! k) + sumZ ((λ p, f p.2) <$> map_to_list (delete k m)).
Proof.
  destruct (m !! k) as [old|] eqn:Hk; cbn [from_option].
  - rewrite (sumZ_Permutation _ ((λ p, f p.2) <$> (k, old) :: map_to_list (delete k m))).
    + done.
    + apply fmap_Permutation. symmetry. by apply map_to_list_delete.
  - by rewrite delete_id.
Qed.

Lemma wrap_add_r (a b : Z) : wrap (a + wrap b) = wrap (a + b).
Proof. by rewrite Z.add_comm, wrap_add_l, Z.add_comm. Qed.

Lemma mapTotal_bump (k : string) (n c : Z) (m : gmap string CoverageStats) :
  wrap (mapTotal (bump k n c m)) = wrap (mapTotal m + n).
Proof.
  unfold mapTotal, bump. rewrite sum_insert, (sum_delete TotalStatements k m).
  cbn [TotalStatements]. unfold int_add. rewrite wrap_add_l.
  destruct (m !! k) as [old|]; cbn [default from_option TotalStatements]; unfold id; f_equal; lia.
Qed.

Lemma mapCovered_bump (k : string) (n c : Z) (m : gmap string CoverageStats) :
  wrap (mapCovered (bump k n c m)) = wrap (mapCovered m + (if 0 <? c then n else 0)).
Proof.
  unfold mapCovered, bump. rewrite sum_insert, (sum_delete CoveredStatements k m).
  cbn [CoveredStatements]. unfold int_add.
  destruct (0 <? c); rewrite ?wrap_add_l;
    destruct (m !! k) as [old|]; cbn [default from_option CoveredStatements]; unfold id; f_equal; lia.
Qed.

Lemma counts_snoc (lines : list string) (line : string) :
  counts (lines ++ [line]) =
    counts lines ++ match parseLine line with
                    | Some (_, n, c) => [(n, c)]
                    | None => []
                    end.
Proof.
  unfold counts. rewrite omap_app. f_equal. cbn [omap list_omap].
  by destruct (parseLine line) as [[[filePath n] c]|].
Qed.

Lemma aggregate_totals (lines : list string) :
  wrap (mapTotal (aggregate lines)) = wrap (totalAll lines)
  ∧ wrap (mapCovered (aggregate lines)) = wrap (coveredAll lines).
Proof.
  induction lines as [|line lines [IHt IHc]] using rev_ind; [done|].
  rewrite aggregate_snoc, processLine_parse.
  unfold totalAll, coveredAll in *. rewrite counts_snoc.
  destruct (parseLine line) as [[[filePath n] c]|].
  - rewrite mapTotal_bump, mapCovered_bump.
    rewrite filter_app, !fmap_app, !sumZ_app.
    rewrite <- wrap_add_l, IHt, wrap_add_l.
    rewrite <- (wrap_add_l (mapCovered _)), IHc, wrap_add_l.
    split; [f_equal; unfold sumZ; cbn; lia|].
    destruct (decide (0 < c)) as [Hc|Hc].
    + rewrite filter_cons_True by exact Hc. destruct (Z.ltb_spec 0 c); [|lia].
      f_equal. unfold sumZ. cbn. lia.
    + rewrite filter_cons_False by exact Hc. destruct (Z.ltb_spec 0 c); [lia|].
      f_equal.
  - by rewrite !app_nil_r.
Qed.

Lemma sorted_names_total (f : CoverageStats → Z) (m : gmap string CoverageStats) :
  sumZ ((λ k, f (default {| TotalStatements := 0; CoveredStatements := 0 |} (m !! k)))
          <$> Sort.Strings (map_to_list m).*1)
  = sumZ ((λ p, f p.2) <$> map_to_list m).
Proof.
  rewrite (sumZ_Permutation _
    ((λ k, f (default {| TotalStatements := 0; CoveredStatements := 0 |} (m !! k)))
       <$> (map_to_list m).*1))
    by (apply fmap_Permutation; unfold Sort.Strings; apply merge_sort_Permutation).
  f_equal. rewrite <- list_fmap_compose. apply Forall_fmap_ext, Forall_forall.
  intros [k st] Hin. apply elem_of_map_to_list in Hin. cbn. by rewrite Hin.
Qed.

Lemma report_shape (m : gmap string CoverageStats) :
  m ≠ ∅ →
  (report m).1 =
    [Println "";
     Printf ("%-61s %10s" +:+ newline) [AStr "PACKAGE"; AStr "COVERAGE"];
     Println (Strings.Repeat "-" 70)]
    ++ (rowOf m <$> Sort.Strings (map_to_list m).*1)
    ++ [Println (Strings.Repeat "-" 70);
        Printf rowFormat [AStr "TOTAL";
                          AFloat (coverageOf (wrap (mapCovered m)) (wrap (mapTotal m)))];
        Printf (newline +:+ "Statements: %d/%d covered" +:+ newline)
               [AInt (wrap (mapCovered m)); AInt (wrap (mapTotal m))]].
Proof.
  intros Hne. unfold report.
  rewrite bool_decide_eq_false_2 by (intros Hsize; by apply map_size_empty_inv in Hsize).
  pose proof (reportRows_rows m (Sort.Strings (map_to_list m).*1) 0 0) as Hrows.
  pose proof (reportRows_totals m (Sort.Strings (map_to_list m).*1) 0 0) as Htotals.
  rewrite (wrap_small 0) in Htotals by (unfold minInt, maxInt, intSize; lia).
  rewrite !Z.add_0_l in Htotals.
  rewrite (sorted_names_total TotalStatements), (sorted_names_total CoveredStatements) in Htotals.
  unfold bind, emit, ret.
  destruct (reportRows m _ 0 0) as [rows [ts tc]]. cbn [fst snd] in *.
  injection Htotals as -> ->. by rewrite Hrows.
Qed.

(** X10.  The TOTAL row and the statements line give the sums over all
    well-formed lines of the profile, whatever their packages: the
    statement counts of all of them, and of those with a positive
    execution count, as 64-bit integers. *)
Theorem summary_totals (w : World) (path content : string) (rerr : option error)
    (lines : list string) :
  openFile w path = inl (content, rerr) →
  Bufio.ScanAll content rerr = (lines, None) →
  ¬ Forall (λ line, parseLine line = None) lines →
  ∃ table,
    (displayCoverageStats w path).1 =
      table ++
      [Printf rowFormat
         [AStr "TOTAL"; AFloat (coverageOf (wrap (coveredAll lines)) (wrap (totalAll lines)))];
       Printf (newline +:+ "Statements: %d/%d covered" +:+ newline)
         [AInt (wrap (coveredAll lines)); AInt (wrap (totalAll lines))]]
    ∧ length table = (4 + size (aggregate lines))%nat.
Proof.
  intros Hopen Hscan Hsome.
  rewrite (displayCoverageStats_scanned _ _ _ _ _ _ Hopen Hscan).
  rewrite <- aggregate_empty in Hsome. rewrite (report_shape _ Hsome).
  destruct (aggregate_totals lines) as [-> ->].
  eexists ([_; _; _] ++ (rowOf (aggregate lines) <$> _) ++ [_]). split.
  - by rewrite <- !app_assoc.
  - rewrite !length_app, length_fmap. unfold Sort.Strings.
    rewrite merge_sort_Permutation, length_fmap, length_map_to_list. cbn. lia.
Qed.

Lemma summary_totals_witness :
  ∃ table,
    (displayCoverageStats (sampleWorld None) coverProfile).1 =
      table ++
      [Printf rowFormat [AStr "TOTAL"; AFloat (FPercent 5 9)];
       Printf (newline +:+ "Statements: %d/%d covered" +:+ newline) [AInt 5; AInt 9]]
    ∧ length table = 6%nat.
Proof.
  destruct (summary_totals (sampleWorld None) coverProfile sampleProfile None
              ["mode: atomic";
               "example.com/m/main.go:10.2,12.16 3 1";
               "example.com/m/pkg/a.go:5.1,9.2 4 0";
               "example.com/m/pkg/a.go:11.1,12.2 2 7"]) as (table & Hout & Hlen).
  - reflexivity.
  - vm_compute. reflexivity.
  - intros H. apply Forall_cons in H as [_ H]. apply Forall_cons in H as [H _].
    vm_compute in H. discriminate H.
  - exists table. split.
    + vm_compute. vm_compute in Hout. exact Hout.
    + vm_compute. vm_compute in Hlen. exact Hlen.
Defined.

(** ** The rows of the summary *)

Lemma slice_split (s : string) (n : nat) :
  (n ≤ String.length s)%nat →
  s = Strings.sliceTo s n +:+ Strings.sliceFrom s n
  ∧ String.length (Strings.sliceFrom s n) = (String.length s - n)%nat.
Proof.
  revert s. induction n as [|n IH]; intros s Hn.
  - split; [done|]. cbn. lia.
  - destruct s as [|c s]; [cbn in Hn; lia|].
    cbn [Strings.sliceTo Strings.sliceFrom String.length] in *.
    destruct (IH s) as [Hs Hlen]; [lia|]. rewrite append_cons, <- Hs. split; [done|]. lia.
Qed.

(** X11.  The name shown in a row is never longer than 58 bytes: a
    name of at most 58 bytes is shown as it is, a longer one as three
    dots and its last 55 bytes, and the slice that takes them is within
    the name. *)
Theorem displayName_fits (pkg : string) :
  (String.length (displayName pkg) ≤ 58)%nat
  ∧ ((String.length pkg ≤ 58)%nat → displayName pkg = pkg)
  ∧ ((58 < String.length pkg)%nat →
     (String.length pkg - 55 ≤ String.length pkg)%nat
     ∧ ∃ cut rest, pkg = cut +:+ rest
                   ∧ String.length rest = 55%nat
                   ∧ displayName pkg = "..." +:+ rest).
Proof.
  unfold displayName.
  destruct (Nat.ltb_spec 58 (String.length pkg)) as [Hlong|Hshort].
  - destruct (slice_split pkg (String.length pkg - 55)) as [Hsplit Hlen]; [lia|].
    split; [|split].
    + rewrite length_append, Hlen. cbn. lia.
    + lia.
    + intros _. split; [lia|]. eexists _, _. split; [exact Hsplit|]. split; [lia|done].
  - split; [done|]. split; [done|lia].
Qed.




(** ** [printTestErrors] *)

Lemma Split_no_sep (s : string) (c : ascii) :
  Forall (λ l, Strings.Contains l (String c EmptyString) = false)
         (Strings.Split s (String c EmptyString)).
Proof.
  unfold Strings.Split. induction s as [|d s IH]; [by repeat constructor|].
  cbn [Strings.splitFrom]. rewrite HasPrefix_byte. cbn [String.length Nat.sub].
  destruct (Ascii.eqb d c) eqn:Hd.
  - constructor; [done|exact IH].
  - pose proof (splitFrom_nonempty (String c EmptyString) 0 s) as Hne.
    destruct (Strings.splitFrom _ 0 s) as [|hd tl]; [done|].
    apply Forall_cons in IH as [Hhd Htl]. constructor; [|done].
    by rewrite Contains_cons, Hd, Hhd.
Qed.

Lemma filter_all {A} (P : A → Prop) `{∀ x, Decision (P x)} (l : list A) :
  Forall P l → filter P l = l.
Proof.
  induction 1 as [|x l Hx _ IH]; [done|]. by rewrite filter_cons_True, IH.
Qed.

Lemma HasPrefix_Contains_suffix (a b s : string) :
  Strings.HasPrefix s (a +:+ b) = true → Strings.Contains s b = true.
Proof.
  revert s. induction a as [|x a IH]; intros s.
  - rewrite append_nil_l. apply Contains_here.
  - rewrite append_cons. destruct s as [|c s]; [done|]. cbn [Strings.HasPrefix].
    destruct (Ascii.eqb c x); [|done]. intros H. by apply Contains_later, IH.
Qed.

Lemma Contains_suffix (a b s : string) :
  Strings.Contains s (a +:+ b) = true → Strings.Contains s b = true.
Proof.
  induction s as [|c s IH]; cbn [Strings.Contains].
  - rewrite orb_false_r. intros H. by apply HasPrefix_Contains_suffix in H.
  - intros [H|H]%orb_true_iff.
    + apply HasPrefix_Contains_suffix in H. exact H.
    + by apply Contains_later, IH.
Qed.

(** X13.  What [printTestErrors] prints are lines of the output, in
    their order, each a line its test accepts and without a newline of
    its own; every line with FAIL is among them (so that the separate
    test for the marker of a failed test decides nothing); and giving
    it what it printed prints the same again. *)
Theorem printTestErrors_shown (output : string) :
  ∃ shown,
    printTestErrors output = (Println <$> shown, tt)
    ∧ shown `sublist_of` Strings.Split output newline
    ∧ Forall (λ line, isErrorLine line = true ∧ Strings.Contains line newline = false) shown
    ∧ (∀ line marker, line ∈ Strings.Split output newline →
         Strings.Contains line (marker +:+ "FAIL") = true → line ∈ shown)
    ∧ printTestErrors (Strings.Join shown newline) = printTestErrors output.
Proof.
  exists (filter (λ line, isErrorLine line = true) (Strings.Split output newline)).
  split; [done|]. split; [apply sublist_filter|]. split; [|split].
  - apply Forall_forall. intros line [Hline Hin]%list_elem_of_filter. split; [done|].
    pose proof (Split_no_sep output (ascii_of_N 10)) as Hsep.
    rewrite Forall_forall in Hsep. by apply Hsep.
  - intros line marker Hin Hfail. apply list_elem_of_filter. split; [|done].
    apply Contains_suffix in Hfail. unfold isErrorLine. by rewrite Hfail.
  - unfold printTestErrors. do 2 f_equal.
    destruct (filter _ (Strings.Split output newline)) as [|l shown] eqn:Hshown; [done|].
    assert (Forall (λ line, isErrorLine line = true ∧ Strings.Contains line newline = false)
                   (l :: shown)) as Hall.
    { rewrite <- Hshown. apply Forall_forall.
      intros line [Hline Hin]%list_elem_of_filter. split; [done|].
      pose proof (Split_no_sep output (ascii_of_N 10)) as Hsep.
      rewrite Forall_forall in Hsep. by apply Hsep. }
    unfold newline in *. rewrite Split_Join; [|done|].
    + apply filter_all. eapply Forall_impl; [exact Hall|]. by intros line [? _].
    + eapply Forall_impl; [exact Hall|]. by intros line [_ ?].
Qed.

(** X14.  [printTestErrors] works line by line: on two outputs joined
    by a newline it prints what it prints on the first, then what it
    prints on the second. *)
Theorem printTestErrors_app (out1 out2 : string) :
  printTestErrors (out1 +:+ newline +:+ out2)
  = (printTestErrors out1;; printTestErrors out2).
Proof.
  unfold printTestErrors, emits, bind. cbn [fst snd].
  unfold newline. change (String (ascii_of_N 10) EmptyString +:+ out2)
    with (String (ascii_of_N 10) out2).
  by rewrite Split_append, filter_app, fmap_app.
Qed.
